(** * complement-crypto: deployment orchestration and test harness

    A shallow embedding of the Go sources

      - [internal/deploy] (the file declaring [SlidingSyncDeployment],
        [Teardown], [RunNewDeployment], [externalURL], [writeContainerLogs]),
      - [internal/api/mautrixgo] ([MautrixClient]),
      - [tests/main_test.go] ([Deploy], [CreateNewEncryptedRoom] and the
        [EncRoomOptions]),

    together with the properties the specification states about them.

    Effects (containers, files, logging, process exit) are recorded as a
    trace of events over an explicit [World] that answers every call that
    can fail.  [log.Fatalf] ends the process ([OsExit 1]); [t.Fatalf] ends
    the calling goroutine ([Goexit]).

    The reverse proxy's rule evaluation and the Waiter are used by the
    tests but their code is not among these sources; modules [proxy] and
    [waiter] model them from the specification. *)

From Stdlib Require Import ZArith Lia.
From stdpp Require Import gmap strings list fin_maps pretty.

Local Open Scope Z_scope.
Local Open Scope string_scope.
Local Open Scope list_scope.

(** ** Package [deploy] *)
Module deploy.

(** A Go [error]: [None] is [nil], [Some msg] carries [err.Error()]. *)
Definition error := option string.

(** What [fmt] prints for an [error] operand under [%s], [%v] or [Println]. *)
Definition show_error (e : error) : string :=
  match e with
  | None => "<nil>"
  | Some msg => msg
  end.

(** [wait.ForExec(..).WithExitCodeMatcher(f)]: [f] may print before it
    answers, so a matcher yields the lines it prints and its verdict. *)
Definition ExitCodeMatcher := Z → list string * bool.

Inductive WaitStrategy :=
| ForLog (line : string)
| ForExec (cmd : list string) (matcher : ExitCodeMatcher) (pollIntervalMs : Z).

(** [testcontainers.ContainerRequest], the fields the source sets. *)
Record ContainerRequest := {
  Image : string;
  ExposedPorts : list string;
  Env : list (string * string);
  WaitingFor : WaitStrategy;
  Networks : list string;
  NetworkAliases : list (string * list string)
}.

(** A running container, as handed back by [testcontainers.GenericContainer]. *)
Record Container := {
  c_image : string;
  c_ports : list string
}.

#[global] Instance Container_eq_dec : EqDecision Container.
Proof. solve_decision. Defined.

Inductive Signal := Interrupt | Kill.

(** [*exec.Cmd] after a successful [Start]. *)
Record Cmd := {
  cmd_path : string;
  cmd_args : list string;
  cmd_pid : Z
}.

(** [complement.Deployment]: the calls the source makes on it. *)
Record ComplementDeployment := {
  Network : string;
  BaseURL : string → string      (* UnauthenticatedClient(t, hs).BaseURL *)
}.

(** [*ReverseProxyController]; only [Listen] and [Terminate] are called. *)
Inductive ReverseProxyController := NewReverseProxyController.

Inductive Event :=
(* teardown *)
| EvOsCreate (filename : string)
| EvContainerLogs (c : Container)
| EvIoCopy (filename : string) (c : Container)
| EvLogPrintf (msg : string)
| EvLogFatalf (msg : string)
| EvTerminate (c : Container)
| EvControllerTerminate
| EvProcessSignal (cmd : Cmd) (sig : Signal)
| EvCmdWait (cmd : Cmd)
| EvPrintln (msg : string)
(* provisioning *)
| EvComplementDeploy (numServers : Z)
| EvControllerListen
| EvCreateContainer (image : string) (aliases : list (string * list string))
| EvProbe (image : string) (poll : nat)
| EvContainerHost (c : Container)
| EvMappedPort (c : Container) (port : string)
| EvCmdStart (path : string) (args : list string)
| EvTLog (msg : string)
| EvTFatalf (msg : string).

(** How a call ends. *)
Inductive Outcome (A : Type) : Type :=
| Done (a : A)
| OsExit (code : Z)
| Goexit.
Arguments Done {A} a.
Arguments OsExit {A} code.
Arguments Goexit {A}.

(** Computations that log events and may end the process or goroutine. *)
Definition M (A : Type) : Type := (list Event * Outcome A)%type.

Definition ret {A} (a : A) : M A := ([], Done a).

Definition bind {A B} (m : M A) (k : A → M B) : M B :=
  match m with
  | (tr, Done a) => let '(tr', o) := k a in (tr ++ tr', o)
  | (tr, OsExit c) => (tr, OsExit c)
  | (tr, Goexit) => (tr, Goexit)
  end.

Notation "'do' x <~ m ; k" := (bind m (λ x, k))
  (at level 10, x name, m at level 100, k at level 200).
Notation "m ;;; k" := (bind m (λ _, k))
  (at level 100, k at level 200, right associativity).

Definition emit (e : Event) : M unit := ([e], Done tt).

Definition trace {A} (m : M A) : list Event := m.1.
Definition outcome {A} (m : M A) : Outcome A := m.2.

(** [log.Printf]. *)
Definition log_Printf (msg : string) : M unit := emit (EvLogPrintf msg).

(** [log.Fatalf]: print, then [os.Exit(1)]. *)
Definition log_Fatalf {A} (msg : string) : M A := ([EvLogFatalf msg], OsExit 1).

(** [t.Fatalf]: log, mark failed, then [runtime.Goexit]. *)
Definition t_Fatalf {A} (msg : string) : M A := ([EvTFatalf msg], Goexit).

Definition t_Logf (msg : string) : M unit := emit (EvTLog msg).

(** What a probe of a starting container sees at one poll. *)
Record Observation := {
  obs_log : string;      (* output captured so far *)
  obs_exit : Z           (* exit code of the health command *)
}.

(** Everything outside the program. *)
Record World := {
  (* teardown *)
  terminate_err : Container → error;
  os_create_err : string → error;
  logs_err : Container → error;
  io_copy_err : string → Container → error;
  signal_err : Cmd → error;
  wait_err : Cmd → error;
  (* provisioning *)
  complement_deploy : option ComplementDeployment;
  controller_listen : Z + string;
  create_err : string → error;
  observe : string → nat → Observation;
  startup_polls : nat;
  host_of : Container → string + string;
  mapped_port : Container → string → string + string;
  url_port : string → string;
  cmd_start : string → list string → Z + string
}.

Record SlidingSyncDeployment := {
  Deployment : ComplementDeployment;
  Controller : ReverseProxyController;
  postgres : option Container;
  slidingSync : option Container;
  reverseProxy : option Container;
  slidingSyncURL : string;
  tcpdump : option Cmd
}.

Section WithWorld.
Context (w : World).

(** [container.Terminate(ctx)] *)
Definition Terminate (c : Container) : M error :=
  emit (EvTerminate c) ;;; ret (terminate_err w c).

(** [writeContainerLogs]: create the file, open the log reader, copy. *)
Definition writeContainerLogs (container : Container) (filename : string) : M error :=
  emit (EvOsCreate filename) ;;;
  match os_create_err w filename with
  | Some err => ret (Some ("os.Create: " +:+ err))
  | None =>
    emit (EvContainerLogs container) ;;;
    match logs_err w container with
    | Some err => ret (Some ("container.Logs: " +:+ err))
    | None =>
      emit (EvIoCopy filename container) ;;;
      match io_copy_err w filename container with
      | Some err => ret (Some ("io.Copy: " +:+ err))
      | None => ret None
      end
    end
  end.

(** [Teardown].  The operands of [fmt.Println] are evaluated before it
    prints: the signal is sent, then reported; the wait returns, then is
    reported. *)
Definition Teardown (d : SlidingSyncDeployment) (writeLogs : bool) : M unit :=
  match slidingSync d with
  | Some c =>
    (if writeLogs then
       do err <~ writeContainerLogs c "container-sliding-sync.log";
       match err with
       | Some e => log_Printf ("failed to write sliding sync logs: " +:+ e)
       | None => ret tt
       end
     else ret tt) ;;;
    do err <~ Terminate c;
    match err with
    | Some e => log_Fatalf ("failed to stop sliding sync: " +:+ e)
    | None => ret tt
    end
  | None => ret tt
  end ;;;
  match postgres d with
  | Some c =>
    do err <~ Terminate c;
    match err with
    | Some e => log_Fatalf ("failed to stop postgres: " +:+ e)
    | None => ret tt
    end
  | None => ret tt
  end ;;;
  match reverseProxy d with
  | Some c =>
    emit EvControllerTerminate ;;;
    do err <~ Terminate c;
    match err with
    | Some e => log_Fatalf ("failed to stop reverse proxy: " +:+ e)
    | None => ret tt
    end
  | None => ret tt
  end ;;;
  match tcpdump d with
  | Some cmd =>
    emit (EvProcessSignal cmd Interrupt) ;;;
    emit (EvPrintln ("Sent SIGINT to tcpdump, waiting for it to exit, err= "
                     +:+ show_error (signal_err w cmd))) ;;;
    emit (EvCmdWait cmd) ;;;
    emit (EvPrintln ("tcpdump finished, err= " +:+ show_error (wait_err w cmd)))
  | None => ret tt
  end.

(** [must.NotError(t, msg, err)] after [x, err := f()]: the value when
    [err] is nil, otherwise the test is failed on the spot. *)
Definition must_NotError {A} (msg : string) (r : A + string) : M A :=
  match r with
  | inl a => ret a
  | inr err => t_Fatalf (msg +:+ ": " +:+ err)
  end.

(** [strings.Contains(s, sub)] *)
Fixpoint contains (sub s : string) : bool :=
  if String.prefix sub s then true
  else match s with
       | EmptyString => false
       | String _ s' => contains sub s'
       end.

(** Modelled from the spec: one readiness probe of testcontainers-go,
    which is not part of these sources: "a specific log line appears or a
    specific command exits zero" (the verdict on the exit code is the
    request's matcher). *)
Definition probe (s : WaitStrategy) (o : Observation) : list string * bool :=
  match s with
  | ForLog line => ([], contains line (obs_log o))
  | ForExec _ matcher _ => matcher (obs_exit o)
  end.

Definition println_all (lines : list string) : M unit :=
  (map EvPrintln lines, Done tt).

(** Modelled from the spec: the wait loop of testcontainers-go, which is
    not part of these sources.  "each provisioned process is considered
    ready when a specific log line appears or a specific command exits
    zero, polled at a fixed interval until a startup deadline": poll
    number [k] probes the container; [fuel] polls remain before the
    deadline.  (The source passes a 60 s context for the sliding sync
    container and the background context for the other two; the deadline
    is the world's [startup_polls] for all three.) *)
Fixpoint waitUntilReady (image : string) (s : WaitStrategy) (k fuel : nat) : M bool :=
  match fuel with
  | O => ret false
  | S fuel' =>
    emit (EvProbe image k) ;;;
    let '(lines, ok) := probe s (observe w image k) in
    println_all lines ;;;
    if ok then ret true else waitUntilReady image s (S k) fuel'
  end.

(** Modelled from the spec: [testcontainers.GenericContainer] with
    [Started: true], which is not part of these sources.  It creates and
    starts the container, then blocks in the wait loop of the request's
    [WaitingFor] strategy; it returns the container once ready and an
    error otherwise. *)
Definition GenericContainer (req : ContainerRequest) : M (Container + string) :=
  emit (EvCreateContainer (Image req) (NetworkAliases req)) ;;;
  match create_err w (Image req) with
  | Some e => ret (inr e)
  | None =>
    do ready <~ waitUntilReady (Image req) (WaitingFor req) 0 (startup_polls w);
    if ready
    then ret (inl {| c_image := Image req; c_ports := ExposedPorts req |})
    else ret (inr "container did not become ready before the startup deadline")
  end.

(** [externalURL] *)
Definition externalURL (c : Container) (exposedPort : string) : M string :=
  emit (EvContainerHost c) ;;;
  do host <~ must_NotError "failed to get host" (host_of w c);
  emit (EvMappedPort c exposedPort) ;;;
  do mappedPort <~ must_NotError "failed to get mapped port" (mapped_port w c exposedPort);
  ret ("http://" +:+ host +:+ ":" +:+ mappedPort).

(** The exit-code matcher given to postgres' [wait.ForExec]. *)
Definition pg_isready_matcher : ExitCodeMatcher :=
  λ exitCode, (["pg_isready exit code " +:+ pretty exitCode], Z.eqb exitCode 0).

Definition rpRequest (networkName : string) (controllerPort : Z) : ContainerRequest :=
  {| Image := "ghcr.io/matrix-org/complement-crypto-reverse-proxy:latest";
     ExposedPorts := ["3000/tcp"; "3001/tcp"];
     Env := [("REVERSE_PROXY_CONTROLLER_URL",
              (* Sprintf without a verb for its operand *)
              "http://host.docker.internal:%!(EXTRA int=" +:+ pretty controllerPort +:+ ")");
             ("REVERSE_PROXY_HOSTS", "http://hs1,3000;http://hs2,3001")];
     WaitingFor := ForLog "listening";
     Networks := [networkName];
     NetworkAliases := [(networkName, ["reverseproxy"])] |}.

Definition postgresRequest (networkName : string) : ContainerRequest :=
  {| Image := "postgres:13-alpine";
     ExposedPorts := ["5432/tcp"];
     Env := [("POSTGRES_USER", "postgres");
             ("POSTGRES_PASSWORD", "postgres");
             ("POSTGRES_DB", "syncv3")];
     WaitingFor := ForExec ["pg_isready"] pg_isready_matcher 1000;
     Networks := [networkName];
     NetworkAliases := [(networkName, ["postgres"])] |}.

Definition ssRequest (networkName : string) : ContainerRequest :=
  {| Image := "ghcr.io/matrix-org/sliding-sync:v0.99.12";
     ExposedPorts := ["6789/tcp"];
     Env := [("SYNCV3_SECRET", "secret");
             ("SYNCV3_BINDADDR", ":6789");
             ("SYNCV3_SERVER", "http://hs1:8008");
             ("SYNCV3_DB",
              "user=postgres dbname=syncv3 sslmode=disable password=postgres host=postgres")];
     WaitingFor := ForLog "listening on";
     Networks := [networkName];
     NetworkAliases := [(networkName, ["ssproxy"])] |}.

Definition tcpdumpArgs (filter : string) : list string :=
  ["-i"; "any"; "-s"; "0"; filter; "-w"; "test.pcap"].

(** [RunNewDeployment] *)
Definition RunNewDeployment (shouldTCPDump : bool) : M SlidingSyncDeployment :=
  (* Deploy the homeserver using Complement *)
  emit (EvComplementDeploy 2) ;;;
  do deployment <~ match complement_deploy w with
                   | Some dep => ret dep
                   | None => ([], Goexit)
                   end;
  let networkName := Network deployment in
  let controller := NewReverseProxyController in
  emit EvControllerListen ;;;
  do controllerPort <~ match controller_listen w with
                       | inl port => ret port
                       | inr err =>
                         t_Fatalf ("reverse proxy controller failed to listen: " +:+ err)
                       end;
  (* make a reverse proxy. *)
  let hs1ExposedPort := "3000/tcp" in
  let hs2ExposedPort := "3001/tcp" in
  do r <~ GenericContainer (rpRequest networkName controllerPort);
  do rpContainer <~ must_NotError "failed to start reverse proxy container" r;
  do rpHS1URL <~ externalURL rpContainer hs1ExposedPort;
  do rpHS2URL <~ externalURL rpContainer hs2ExposedPort;
  (* Make a postgres container *)
  do r <~ GenericContainer (postgresRequest networkName);
  do postgresContainer <~ must_NotError "failed to start postgres container" r;
  (* Make a sliding sync proxy *)
  let ssExposedPort := "6789/tcp" in
  do r <~ GenericContainer (ssRequest networkName);
  do ssContainer <~ must_NotError "failed to start sliding sync container" r;
  do ssURL <~ externalURL ssContainer ssExposedPort;
  let csapi1 := BaseURL deployment "hs1" in
  let csapi2 := BaseURL deployment "hs2" in
  (* log for debugging purposes *)
  t_Logf ("SlidingSyncDeployment created (network=" +:+ networkName +:+ "):") ;;;
  t_Logf "  NAME          INT          EXT" ;;;
  t_Logf ("  sliding sync: ssproxy      " +:+ ssURL) ;;;
  t_Logf ("  synapse:      hs1          " +:+ csapi1) ;;;
  t_Logf ("  synapse:      hs2          " +:+ csapi2) ;;;
  t_Logf "  postgres:     postgres" ;;;
  t_Logf ("  reverseproxy: reverseproxy hs1=" +:+ rpHS1URL +:+ " hs2=" +:+ rpHS2URL) ;;;
  do cmd <~ (if shouldTCPDump then
               t_Logf "Running tcpdump..." ;;;
               let filter := "tcp port " +:+ url_port w ssURL
                             +:+ " or port " +:+ url_port w csapi1
                             +:+ " or port " +:+ url_port w csapi2 in
               let args := tcpdumpArgs filter in
               t_Logf (String.concat " " ("tcpdump" :: args)) ;;;
               emit (EvCmdStart "tcpdump" args) ;;;
               match cmd_start w "tcpdump" args with
               | inr err => t_Fatalf ("tcpdump failed: " +:+ err)
               | inl pid =>
                 t_Logf ("Started tcpdumping: PID " +:+ pretty pid) ;;;
                 ret (Some {| cmd_path := "tcpdump"; cmd_args := args; cmd_pid := pid |})
               end
             else ret None);
  ret {| Deployment := deployment;
         Controller := controller;
         slidingSync := Some ssContainer;
         postgres := Some postgresContainer;
         reverseProxy := Some rpContainer;
         slidingSyncURL := ssURL;
         tcpdump := cmd |}.

End WithWorld.

(** *** Reading traces *)

(** The containers a trace terminates, in order. *)
Definition terminated (tr : list Event) : list Container :=
  omap (λ e, match e with EvTerminate c => Some c | _ => None end) tr.

(** The stop requests of a trace: container terminations and the
    termination of the reverse proxy's controller. *)
Definition stop_events (tr : list Event) : list Event :=
  omap (λ e, match e with
             | EvTerminate _ | EvControllerTerminate => Some e
             | _ => None
             end) tr.

(** The containers a deployment owns, by field: sliding sync, postgres,
    reverse proxy. *)
Definition owned (d : SlidingSyncDeployment) : list Container :=
  omap id [slidingSync d; postgres d; reverseProxy d].

Definition terminates_ok (w : World) (c : Container) : bool :=
  match terminate_err w c with None => true | Some _ => false end.

(** The containers of [cs] up to and including the first whose
    termination fails. *)
Fixpoint through_first_failure (w : World) (cs : list Container) : list Container :=
  match cs with
  | [] => []
  | c :: cs' => c :: (if terminates_ok w c then through_first_failure w cs' else [])
  end.

(** The containers whose captured output a trace copies to a file. *)
Definition logs_copied (tr : list Event) : list (string * Container) :=
  omap (λ e, match e with EvIoCopy f c => Some (f, c) | _ => None end) tr.

(** Some file receives the output of [c], and [c] is terminated later. *)
Fixpoint persisted_before_terminated (c : Container) (tr : list Event) : bool :=
  match tr with
  | [] => false
  | EvIoCopy _ c' :: tr' =>
    (bool_decide (c' = c) && bool_decide (c ∈ terminated tr'))
    || persisted_before_terminated c tr'
  | _ :: tr' => persisted_before_terminated c tr'
  end.

(** The signals and waits a trace performs on side-processes. *)
Definition process_events (tr : list Event) : list Event :=
  omap (λ e, match e with
             | EvProcessSignal _ _ | EvCmdWait _ => Some e
             | _ => None
             end) tr.

(** The spec's names for what is provisioned. *)
Inductive Resource := NetworkR | DatastoreR | ReverseProxyR | SyncProxyR.

#[global] Instance Resource_eq_dec : EqDecision Resource.
Proof. solve_decision. Defined.

Definition resource_of_image (image : string) : option Resource :=
  if decide (image = "postgres:13-alpine") then Some DatastoreR
  else if decide (image = "ghcr.io/matrix-org/complement-crypto-reverse-proxy:latest")
       then Some ReverseProxyR
  else if decide (image = "ghcr.io/matrix-org/sliding-sync:v0.99.12") then Some SyncProxyR
  else None.

Definition provisioned (e : Event) : option Resource :=
  match e with
  | EvComplementDeploy _ => Some NetworkR
  | EvCreateContainer image _ => resource_of_image image
  | _ => None
  end.

(** What a trace provisions, in order. *)
Definition provisioning_order (tr : list Event) : list Resource := omap provisioned tr.

Definition resource_of (c : Container) : option Resource := resource_of_image (c_image c).

(** *** Concrete worlds *)

(** The port of ["http://host:port"]: what follows the last colon. *)
Fixpoint after_last_colon (s acc : string) : string :=
  match s with
  | EmptyString => acc
  | String c s' => if Ascii.eqb c (Ascii.ascii_of_nat 58) then after_last_colon s' s' else after_last_colon s' acc
  end.

(** A world in which everything works: logs say "listening on" from the
    third poll on, [pg_isready] exits zero from the second. *)
Definition goodWorld : World :=
  {| terminate_err := λ _, None;
     os_create_err := λ _, None;
     logs_err := λ _, None;
     io_copy_err := λ _ _, None;
     signal_err := λ _, None;
     wait_err := λ _, None;
     complement_deploy :=
       Some {| Network := "complement_crypto";
               BaseURL := λ hs, if String.eqb hs "hs1" then "http://localhost:32770"
                                else "http://localhost:32771" |};
     controller_listen := inl 40123;
     create_err := λ _, None;
     observe := λ _ k, {| obs_log := if (2 <=? k)%nat then "server listening on :6789"
                                     else "starting";
                          obs_exit := if (1 <=? k)%nat then 0 else 2 |};
     startup_polls := 60;
     host_of := λ _, inl "localhost";
     mapped_port := λ c p, inl (if String.eqb p "6789/tcp" then "32780"
                                else if String.eqb p "3000/tcp" then "32781" else "32782");
     url_port := λ u, after_last_colon u "";
     cmd_start := λ _ _, inl 4242 |}.

(** As [goodWorld], but the sliding sync container refuses to stop. *)
Definition stuckWorld : World :=
  {| terminate_err := λ c, if String.eqb (c_image c) "ghcr.io/matrix-org/sliding-sync:v0.99.12"
                           then Some "context deadline exceeded" else None;
     os_create_err := os_create_err goodWorld;
     logs_err := logs_err goodWorld;
     io_copy_err := io_copy_err goodWorld;
     signal_err := signal_err goodWorld;
     wait_err := wait_err goodWorld;
     complement_deploy := complement_deploy goodWorld;
     controller_listen := controller_listen goodWorld;
     create_err := create_err goodWorld;
     observe := observe goodWorld;
     startup_polls := startup_polls goodWorld;
     host_of := host_of goodWorld;
     mapped_port := mapped_port goodWorld;
     url_port := url_port goodWorld;
     cmd_start := cmd_start goodWorld |}.

Definition ssC : Container :=
  {| c_image := "ghcr.io/matrix-org/sliding-sync:v0.99.12"; c_ports := ["6789/tcp"] |}.
Definition pgC : Container :=
  {| c_image := "postgres:13-alpine"; c_ports := ["5432/tcp"] |}.
Definition rpC : Container :=
  {| c_image := "ghcr.io/matrix-org/complement-crypto-reverse-proxy:latest";
     c_ports := ["3000/tcp"; "3001/tcp"] |}.

(** The deployment [RunNewDeployment] builds in [goodWorld], with tcpdump. *)
Definition goodDeployment : SlidingSyncDeployment :=
  {| Deployment := {| Network := "complement_crypto";
                      BaseURL := λ hs, if String.eqb hs "hs1" then "http://localhost:32770"
                                       else "http://localhost:32771" |};
     Controller := NewReverseProxyController;
     postgres := Some pgC;
     slidingSync := Some ssC;
     reverseProxy := Some rpC;
     slidingSyncURL := "http://localhost:32780";
     tcpdump := Some {| cmd_path := "tcpdump";
                        cmd_args := tcpdumpArgs "tcp port 32780 or port 32770 or port 32771";
                        cmd_pid := 4242 |} |}.

(** *** What the claims speak of *)

(** The line has appeared in the container's output at some poll before
    the deadline. *)
Definition ready_log (w : World) (line : string) (c : Container) : Prop :=
  ∃ j, (j < startup_polls w)%nat
       ∧ contains line (obs_log (observe w (c_image c) j)) = true.

(** The health command has exited zero at some poll before the deadline. *)
Definition ready_exit_zero (w : World) (c : Container) : Prop :=
  ∃ j, (j < startup_polls w)%nat ∧ obs_exit (observe w (c_image c) j) = 0.

Definition ready_within (w : World) (req : ContainerRequest) : Prop :=
  ∃ j, (j < startup_polls w)%nat
       ∧ (probe (WaitingFor req) (observe w (Image req) j)).2 = true.

(** The order C4 states: network, datastore, reverse proxy, sync proxy. *)
Definition stated_provisioning_order : list Resource :=
  [NetworkR; DatastoreR; ReverseProxyR; SyncProxyR].

(** C3 as stated: whatever fails, [Teardown] returns and every owned
    container has been asked to terminate. *)
Definition teardown_best_effort (w : World) (d : SlidingSyncDeployment)
    (writeLogs : bool) : Prop :=
  outcome (Teardown w d writeLogs) = Done tt
  ∧ terminated (trace (Teardown w d writeLogs)) = owned d.

(** The order C5 states: sync proxy, reverse proxy, datastore. *)
Definition stated_teardown_order : list Resource :=
  [SyncProxyR; ReverseProxyR; DatastoreR].

(** C6 as stated: with [writeLogs] set, the output of each owned container
    is copied to a file before that container is terminated. *)
Definition logs_persisted_for_each (w : World) (d : SlidingSyncDeployment) : Prop :=
  ∀ c, c ∈ owned d → persisted_before_terminated c (trace (Teardown w d true)) = true.

(** What [Teardown] logs about the result of [writeContainerLogs]. *)
Definition log_note (r : Outcome error) : list Event :=
  match r with
  | Done (Some e) => [EvLogPrintf ("failed to write sliding sync logs: " +:+ e)]
  | _ => []
  end.

(** [writeContainerLogs] gets as far as copying. *)
Definition reaches_copy (w : World) (c : Container) (filename : string) : bool :=
  match os_create_err w filename, logs_err w c with
  | None, None => true
  | _, _ => false
  end.

(** What a trace logs through package [log]. *)
Definition logged (tr : list Event) : list Event :=
  omap (λ e, match e with
             | EvLogPrintf _ | EvLogFatalf _ => Some e
             | _ => None
             end) tr.

(** The owned containers with the names [Teardown] logs them under. *)
Definition owned_named (d : SlidingSyncDeployment) : list (string * Container) :=
  omap id [pair "sliding sync" <$> slidingSync d;
           pair "postgres" <$> postgres d;
           pair "reverse proxy" <$> reverseProxy d].

(** The first owned container that cannot be stopped, with its error. *)
Fixpoint first_failure (w : World) (cs : list (string * Container))
  : option (string * string) :=
  match cs with
  | [] => None
  | (name, c) :: cs' =>
    match terminate_err w c with
    | Some e => Some (name, e)
    | None => first_failure w cs'
    end
  end.

(** The stop requests per owned container: the reverse proxy's controller
    goes just before the reverse proxy. *)
Definition stop_plan (d : SlidingSyncDeployment) : list (list Event * Container) :=
  omap id [(λ c, ([EvTerminate c], c)) <$> slidingSync d;
           (λ c, ([EvTerminate c], c)) <$> postgres d;
           (λ c, ([EvControllerTerminate; EvTerminate c], c)) <$> reverseProxy d].

(** The stop requests made up to and including the first container that
    cannot be stopped. *)
Fixpoint stops_through_first_failure (w : World) (plan : list (list Event * Container))
  : list Event :=
  match plan with
  | [] => []
  | (evs, c) :: rest =>
    evs ++ (if terminates_ok w c then stops_through_first_failure w rest else [])
  end.

(** What [Teardown] logs about writing the logs: nothing unless it is
    asked to write them and there is a sliding sync container. *)
Definition write_note (w : World) (d : SlidingSyncDeployment) (writeLogs : bool)
  : list Event :=
  match slidingSync d with
  | Some c =>
    if writeLogs
    then log_note (outcome (writeContainerLogs w c "container-sliding-sync.log"))
    else []
  | None => []
  end.

(** C8 as stated: [Teardown] stops the capture process of the deployment:
    it sends it an interrupt and then waits for it. *)
Definition capture_stopped_by_teardown (w : World) (d : SlidingSyncDeployment)
    (writeLogs : bool) : Prop :=
  ∃ cmd, tcpdump d = Some cmd
         ∧ process_events (trace (Teardown w d writeLogs))
           = [EvProcessSignal cmd Interrupt; EvCmdWait cmd].

(** *** The monad *)

Lemma bind_Done_inv {A B} (m : M A) (k : A → M B) tr b :
  bind m k = (tr, Done b) →
  ∃ tr1 a tr2, m = (tr1, Done a) ∧ k a = (tr2, Done b) ∧ tr = tr1 ++ tr2.
Proof.
  destruct m as [tr1 [a| |]]; simpl; [|discriminate..].
  destruct (k a) as [tr2 o] eqn:Hk. intros [= <- ->]. eauto 6.
Qed.

(** *** Teardown *)

Ltac teardown_cases w d :=
  unfold Teardown, writeContainerLogs, Terminate, owned;
  destruct d as [dep ctl pg ss rp url cmd]; simpl;
  repeat match goal with
         | c : option Container |- _ => destruct c as [?c|]
         | c : option Cmd |- _ => destruct c as [?cmd|]
         end; simpl; unfold terminates_ok;
  repeat match goal with
         | |- context [terminate_err w ?c] => destruct (terminate_err w c) eqn:?; simpl
         | |- context [os_create_err w ?f] => destruct (os_create_err w f) eqn:?; simpl
         | |- context [logs_err w ?c] => destruct (logs_err w c) eqn:?; simpl
         | |- context [io_copy_err w ?f ?c] => destruct (io_copy_err w f c) eqn:?; simpl
         end.

(** *** Provisioning *)

Ltac bind_step H :=
  let tr1 := fresh "tr" in
  let a := fresh "a" in
  let tr2 := fresh "tr" in
  let H1 := fresh "Hm" in
  apply bind_Done_inv in H as (tr1 & a & tr2 & H1 & H & ->).

(** Search a list built from [::] and [++] for a member. *)
Ltac find_elem :=
  solve [ apply elem_of_cons; left; reflexivity
        | apply elem_of_cons; right; find_elem
        | apply elem_of_app; left; find_elem
        | apply elem_of_app; right; find_elem ].

(** A step that only emits an event. *)
Ltac bind_emit H :=
  let tr1 := fresh "tr" in
  let a := fresh "a" in
  let tr2 := fresh "tr" in
  let H1 := fresh "Hm" in
  apply bind_Done_inv in H as (tr1 & a & tr2 & H1 & H & ->);
  injection H1 as <- _.

Section Provisioning.
Context (w : World).

Lemma provisioning_order_app tr1 tr2 :
  provisioning_order (tr1 ++ tr2) = provisioning_order tr1 ++ provisioning_order tr2.
Proof. apply omap_app. Qed.

Lemma provisioning_order_println lines : provisioning_order (map EvPrintln lines) = [].
Proof. induction lines; simpl; auto. Qed.

Lemma provisioning_order_create img al tr :
  provisioning_order (EvCreateContainer img al :: tr)
  = option_list (resource_of_image img) ++ provisioning_order tr.
Proof. unfold provisioning_order. simpl. by destruct (resource_of_image img). Qed.

(** The wait loop always comes back, within [fuel] polls; when it says
    ready, some probe before the deadline succeeded. *)
Lemma waitUntilReady_spec image s fuel : ∀ k tr o,
  waitUntilReady w image s k fuel = (tr, o) →
  provisioning_order tr = [] ∧
  ∃ b, o = Done b ∧
       if b then ∃ j, (k ≤ j < k + fuel)%nat
                      ∧ (probe s (observe w image j)).2 = true
       else True.
Proof.
  induction fuel as [|fuel IH]; intros k tr o; simpl.
  - intros [= <- <-]. split; [done|]. by exists false.
  - destruct (probe s (observe w image k)) as [lines ok] eqn:Hp.
    destruct ok; simpl.
    + intros [= <- <-]. split.
      { rewrite app_nil_r. apply (provisioning_order_println lines). }
      exists true. split; [done|]. exists k. rewrite Hp. split; [lia|done].
    + destruct (waitUntilReady w image s (S k) fuel) as [tr' o'] eqn:Hw.
      apply IH in Hw as (Hpo & b & -> & Hb). simpl.
      intros [= <- <-]. split.
      { change (provisioning_order (map EvPrintln lines ++ tr') = []).
        by rewrite provisioning_order_app, provisioning_order_println, Hpo. }
      exists b. split; [done|]. destruct b; [|done].
      destruct Hb as (j & Hj & Hpj). exists j. split; [lia|done].
Qed.

Lemma GenericContainer_inv req tr r :
  GenericContainer w req = (tr, r) →
  provisioning_order tr = option_list (resource_of_image (Image req)) ∧
  ∃ res, r = Done res ∧
    match res with
    | inl c => c = {| c_image := Image req; c_ports := ExposedPorts req |}
               ∧ ready_within w req
    | inr _ => True
    end.
Proof.
  unfold GenericContainer. simpl.
  destruct (create_err w (Image req)); simpl.
  - intros [= <- <-]. rewrite provisioning_order_create, app_nil_r.
    split; [done|]. by exists (inr s).
  - destruct (waitUntilReady _ _ _ _ _) as [tr' o'] eqn:Hw.
    apply waitUntilReady_spec in Hw as (Hpo & b & -> & Hb). simpl.
    destruct b; simpl; intros [= <- <-];
      rewrite provisioning_order_create, provisioning_order_app, Hpo, !app_nil_r.
    + split; [done|].
      eexists; split; [done|]. split; [done|].
      destruct Hb as (j & Hj & Hpj). exists j. split; [lia|done].
    + split; [done|]. by eexists.
Qed.

Lemma externalURL_order c p tr o :
  externalURL w c p = (tr, o) → provisioning_order tr = [].
Proof.
  unfold externalURL. simpl. destruct (host_of w c); simpl; [|by intros [= <- <-]].
  destruct (mapped_port w c p); simpl; by intros [= <- <-].
Qed.

Lemma must_NotError_inv {A} msg (r : A + string) tr a :
  must_NotError msg r = (tr, Done a) → r = inl a ∧ tr = [].
Proof. destruct r; simpl; [by intros [= <- <-]|discriminate]. Qed.

(** What a returned deployment tells about the run that built it. *)
Lemma RunNewDeployment_inv tcp tr d :
  RunNewDeployment w tcp = (tr, Done d) →
  provisioning_order tr = [NetworkR; ReverseProxyR; DatastoreR; SyncProxyR] ∧
  reverseProxy d = Some rpC ∧ ready_log w "listening" rpC ∧
  postgres d = Some pgC ∧ ready_exit_zero w pgC ∧
  slidingSync d = Some ssC ∧ ready_log w "listening on" ssC ∧
  if tcp
  then ∃ filter pid, tcpdump d = Some {| cmd_path := "tcpdump";
                                         cmd_args := tcpdumpArgs filter;
                                         cmd_pid := pid |}
                     ∧ EvCmdStart "tcpdump" (tcpdumpArgs filter) ∈ tr
  else tcpdump d = None.
Proof.
  unfold RunNewDeployment. intros H.
  bind_emit H.
  bind_step H. destruct (complement_deploy w) as [dep|]; [|discriminate].
  injection Hm as <- <-.
  bind_emit H.
  bind_step H. destruct (controller_listen w) as [port|]; [|discriminate].
  injection Hm as <- <-.
  bind_step H. apply GenericContainer_inv in Hm as (Hrp & res & [= <-] & Hres).
  bind_step H. apply must_NotError_inv in Hm as [-> ->]. destruct Hres as [-> Hrdy_rp].
  bind_step H. apply externalURL_order in Hm as Hu1.
  bind_step H. apply externalURL_order in Hm0 as Hu2.
  bind_step H. apply GenericContainer_inv in Hm1 as (Hpg & res & [= <-] & Hres).
  bind_step H. apply must_NotError_inv in Hm1 as [-> ->]. destruct Hres as [-> Hrdy_pg].
  bind_step H. apply GenericContainer_inv in Hm1 as (Hss & res & [= <-] & Hres).
  bind_step H. apply must_NotError_inv in Hm1 as [-> ->]. destruct Hres as [-> Hrdy_ss].
  bind_step H. apply externalURL_order in Hm1 as Hu3.
  do 7 bind_emit H.
  bind_step H. injection H as <- <-. simpl.
  split.
  { rewrite !provisioning_order_app, Hrp, Hu1, Hu2, Hpg, Hss, Hu3. simpl.
    destruct tcp.
    - do 3 bind_emit Hm2.
      destruct (cmd_start w _ _); [|discriminate].
      bind_emit Hm2. by injection Hm2 as <- _.
    - by injection Hm2 as <- _. }
  split; [done|]. split.
  { destruct Hrdy_rp as (j & ? & ?). by exists j. }
  split; [done|]. split.
  { destruct Hrdy_pg as (j & ? & Hj). exists j. split; [done|].
    simpl in Hj. by apply Z.eqb_eq. }
  split; [done|]. split.
  { destruct Hrdy_ss as (j & ? & ?). by exists j. }
  destruct tcp.
  - do 3 bind_emit Hm2.
    destruct (cmd_start w _ _) as [pid|]; [|discriminate].
    bind_emit Hm2. injection Hm2 as <- <-.
    eexists _, pid. split; [done|].
    find_elem.
  - by injection Hm2 as _ <-.
Qed.

End Provisioning.

(** The terminations [Teardown] performs: the owned containers in the
    order sliding sync, postgres, reverse proxy, cut after the first
    failure. *)
Lemma Teardown_trace_terminated (w : World) (d : SlidingSyncDeployment) (writeLogs : bool) :
  terminated (trace (Teardown w d writeLogs)) = through_first_failure w (owned d).
Proof. destruct writeLogs; teardown_cases w d; reflexivity. Qed.

(** [Teardown] returns exactly when no termination fails; otherwise the
    process exits with status 1. *)
Lemma Teardown_terminate_outcome (w : World) (d : SlidingSyncDeployment) (writeLogs : bool) :
  outcome (Teardown w d writeLogs)
  = (if forallb (terminates_ok w) (owned d) then Done tt else OsExit 1).
Proof. destruct writeLogs; teardown_cases w d; reflexivity. Qed.

(** *** Properties of provisioning *)

(** C4, as stated, fails: in a world where everything works,
    [RunNewDeployment] returns a deployment after starting the reverse
    proxy before the datastore. *)
Lemma RunNewDeployment_proxy_before_datastore :
  RunNewDeployment goodWorld false
    = (trace (RunNewDeployment goodWorld false),
       Done {| Deployment := Deployment goodDeployment;
               Controller := NewReverseProxyController;
               postgres := Some pgC; slidingSync := Some ssC; reverseProxy := Some rpC;
               slidingSyncURL := "http://localhost:32780"; tcpdump := None |})
  ∧ provisioning_order (trace (RunNewDeployment goodWorld false))
    = [NetworkR; ReverseProxyR; DatastoreR; SyncProxyR]
  ∧ provisioning_order (trace (RunNewDeployment goodWorld false))
    ≠ stated_provisioning_order.
Proof. split; [|split]; vm_compute; [reflexivity|reflexivity|discriminate]. Qed.

(** C4, amended: whenever [RunNewDeployment] returns a deployment, it has
    provisioned the network first, then the reverse proxy, then the
    datastore, then the sync-aggregation proxy, and each of the three
    containers showed its readiness signal at a poll before the startup
    deadline: the log line "listening" for the reverse proxy, [pg_isready]
    exiting zero for the datastore, the log line "listening on" for the
    sync-aggregation proxy. *)
Theorem RunNewDeployment_order_and_readiness (w : World) (tcp : bool)
    (tr : list Event) (d : SlidingSyncDeployment) :
  RunNewDeployment w tcp = (tr, Done d) →
  provisioning_order tr = [NetworkR; ReverseProxyR; DatastoreR; SyncProxyR]
  ∧ (reverseProxy d = Some rpC ∧ ready_log w "listening" rpC)
  ∧ (postgres d = Some pgC ∧ ready_exit_zero w pgC)
  ∧ (slidingSync d = Some ssC ∧ ready_log w "listening on" ssC).
Proof.
  intros H. apply RunNewDeployment_inv in H as (Ho & Hrp & Rrp & Hpg & Rpg & Hss & Rss & _).
  done.
Qed.

Lemma RunNewDeployment_order_and_readiness_witness :
  RunNewDeployment goodWorld true
    = (trace (RunNewDeployment goodWorld true), Done goodDeployment)
  ∧ provisioning_order (trace (RunNewDeployment goodWorld true))
    = [NetworkR; ReverseProxyR; DatastoreR; SyncProxyR]
  ∧ (reverseProxy goodDeployment = Some rpC ∧ ready_log goodWorld "listening" rpC)
  ∧ (postgres goodDeployment = Some pgC ∧ ready_exit_zero goodWorld pgC)
  ∧ (slidingSync goodDeployment = Some ssC ∧ ready_log goodWorld "listening on" ssC).
Proof.
  split; [vm_compute; reflexivity|].
  apply (RunNewDeployment_order_and_readiness goodWorld true _ goodDeployment).
  vm_compute; reflexivity.
Defined.

(** *** Properties of teardown *)

(** C3, as stated, fails: when the sliding sync container cannot be
    stopped, [log.Fatalf] exits the process and neither postgres nor the
    reverse proxy is terminated. *)
Lemma Teardown_failure_exits_process :
  Teardown stuckWorld goodDeployment false
    = ([EvTerminate ssC;
        EvLogFatalf "failed to stop sliding sync: context deadline exceeded"],
       OsExit 1)
  ∧ ¬ teardown_best_effort stuckWorld goodDeployment false.
Proof.
  split; [vm_compute; reflexivity|].
  intros [H _]. vm_compute in H. discriminate.
Qed.

(** C3, amended: if terminating an owned container fails during
    [Teardown], the failure is logged by [log.Fatalf] (failed to stop
    sliding sync, postgres or reverse proxy, with the error), which exits
    the process with status 1: the containers before it in the order
    sliding sync, postgres, reverse proxy have been terminated, the ones
    after it are not, and tcpdump is neither signalled nor waited for; the
    reverse proxy's controller is terminated only just before the reverse
    proxy.  [Teardown] returns exactly when every termination succeeds, and
    then every owned container has been terminated.  Apart from the fatal
    message, the only thing logged is a failure to write the sliding sync
    logs, by [log.Printf]; it is skipped: which containers are terminated
    and how [Teardown] ends do not depend on it. *)
Theorem Teardown_terminate_failure_is_fatal (w : World) (d : SlidingSyncDeployment)
    (writeLogs : bool) :
  terminated (trace (Teardown w d writeLogs)) = through_first_failure w (owned d)
  ∧ outcome (Teardown w d writeLogs)
    = (if forallb (terminates_ok w) (owned d) then Done tt else OsExit 1)
  ∧ stop_events (trace (Teardown w d writeLogs))
    = stops_through_first_failure w (stop_plan d)
  ∧ logged (trace (Teardown w d writeLogs))
    = write_note w d writeLogs
      ++ match first_failure w (owned_named d) with
         | Some (name, e) => [EvLogFatalf ("failed to stop " +:+ name +:+ ": " +:+ e)]
         | None => []
         end
  ∧ match outcome (Teardown w d writeLogs) with
    | Done _ =>
      terminated (trace (Teardown w d writeLogs)) = owned d
      ∧ first_failure w (owned_named d) = None
    | _ =>
      process_events (trace (Teardown w d writeLogs)) = []
      ∧ ∃ c name e,
          terminate_err w c = Some e
          ∧ first_failure w (owned_named d) = Some (name, e)
          ∧ last (trace (Teardown w d writeLogs))
            = Some (EvLogFatalf ("failed to stop " +:+ name +:+ ": " +:+ e))
          ∧ last (terminated (trace (Teardown w d writeLogs))) = Some c
    end.
Proof.
  unfold write_note.
  destruct writeLogs; teardown_cases w d;
    repeat match goal with H : _ = _ |- _ => rewrite ?H end; simpl;
    (split; [reflexivity|]; split; [reflexivity|]; split; [reflexivity|];
     split; [reflexivity|]); try (split; reflexivity);
    (split; [reflexivity|]); eauto 8.
Qed.

(** C5, as stated, fails: the datastore is stopped before the reverse
    proxy. *)
Lemma Teardown_datastore_before_proxy :
  outcome (Teardown goodWorld goodDeployment false) = Done tt
  ∧ terminated (trace (Teardown goodWorld goodDeployment false)) = [ssC; pgC; rpC]
  ∧ omap resource_of (terminated (trace (Teardown goodWorld goodDeployment false)))
    ≠ stated_teardown_order.
Proof. split; [|split]; vm_compute; [reflexivity|reflexivity|discriminate]. Qed.

(** C5, amended: [Teardown] stops the owned containers in the order
    sync-aggregation proxy, datastore, reverse proxy, which is the reverse
    of the order in which [RunNewDeployment] started them (reverse proxy,
    datastore, sync-aggregation proxy, after the network); the reverse
    proxy's controller is terminated just before the reverse proxy. *)
Theorem Teardown_reverse_of_provisioning (w0 w : World) (tcp writeLogs : bool)
    (tr0 : list Event) (d : SlidingSyncDeployment) :
  RunNewDeployment w0 tcp = (tr0, Done d) →
  forallb (terminates_ok w) (owned d) = true →
  terminated (trace (Teardown w d writeLogs)) = [ssC; pgC; rpC]
  ∧ omap resource_of (terminated (trace (Teardown w d writeLogs)))
    = [SyncProxyR; DatastoreR; ReverseProxyR]
  ∧ NetworkR :: rev (omap resource_of (terminated (trace (Teardown w d writeLogs))))
    = provisioning_order tr0
  ∧ stop_events (trace (Teardown w d writeLogs))
    = [EvTerminate ssC; EvTerminate pgC; EvControllerTerminate; EvTerminate rpC].
Proof.
  intros H Hok.
  apply RunNewDeployment_inv in H as (Ho & Hrp & _ & Hpg & _ & Hss & _ & _).
  pose proof (Teardown_trace_terminated w d writeLogs) as Ht.
  assert (Hown : owned d = [ssC; pgC; rpC]).
  { unfold owned. by rewrite Hss, Hpg, Hrp. }
  rewrite Hown in *. cbn [through_first_failure forallb] in *.
  apply andb_prop in Hok as [Hss_ok Hok]. apply andb_prop in Hok as [Hpg_ok Hok].
  apply andb_prop in Hok as [Hrp_ok _].
  rewrite Hss_ok, Hpg_ok, Hrp_ok in Ht. rewrite Ht, Ho.
  do 3 (split; [reflexivity|]).
  unfold terminates_ok in *.
  destruct d as [dep ctl pg ss rp url cmd]; simpl in *; subst.
  unfold Teardown, writeContainerLogs, Terminate. simpl.
  destruct (terminate_err w ssC); [discriminate|].
  destruct (terminate_err w pgC); [discriminate|].
  destruct (terminate_err w rpC); [discriminate|].
  destruct writeLogs; simpl;
    repeat match goal with
           | |- context [os_create_err w ?f] => destruct (os_create_err w f); simpl
           | |- context [logs_err w ?c] => destruct (logs_err w c); simpl
           | |- context [io_copy_err w ?f ?c] => destruct (io_copy_err w f c); simpl
           end;
    destruct cmd; reflexivity.
Qed.

Lemma Teardown_reverse_of_provisioning_witness :
  (RunNewDeployment goodWorld true
     = (trace (RunNewDeployment goodWorld true), Done goodDeployment)
   ∧ forallb (terminates_ok goodWorld) (owned goodDeployment) = true)
  ∧ terminated (trace (Teardown goodWorld goodDeployment true)) = [ssC; pgC; rpC]
  ∧ omap resource_of (terminated (trace (Teardown goodWorld goodDeployment true)))
    = [SyncProxyR; DatastoreR; ReverseProxyR]
  ∧ NetworkR
    :: rev (omap resource_of (terminated (trace (Teardown goodWorld goodDeployment true))))
    = provisioning_order (trace (RunNewDeployment goodWorld true))
  ∧ stop_events (trace (Teardown goodWorld goodDeployment true))
    = [EvTerminate ssC; EvTerminate pgC; EvControllerTerminate; EvTerminate rpC].
Proof.
  split; [split; vm_compute; reflexivity|].
  apply (Teardown_reverse_of_provisioning goodWorld goodWorld true true
           (trace (RunNewDeployment goodWorld true)) goodDeployment);
    vm_compute; reflexivity.
Defined.

(** C6, as stated, fails: only the sliding sync container's output is
    written; postgres and the reverse proxy are terminated without their
    output being captured. *)
Lemma Teardown_persists_sliding_sync_logs_only :
  logs_copied (trace (Teardown goodWorld goodDeployment true))
    = [("container-sliding-sync.log", ssC)]
  ∧ persisted_before_terminated pgC (trace (Teardown goodWorld goodDeployment true)) = false
  ∧ ¬ logs_persisted_for_each goodWorld goodDeployment.
Proof.
  split; [vm_compute; reflexivity|]. split; [vm_compute; reflexivity|].
  intros H. specialize (H pgC). vm_compute in H.
  assert (Hin : pgC ∈ [ssC; pgC; rpC]) by find_elem.
  specialize (H Hin). discriminate.
Qed.

(** C6, amended: when [Teardown] is called with [writeLogs] true, the
    captured output of the sliding sync container, and of no other process,
    is written to container-sliding-sync.log before that container is
    terminated; a failure to capture or write it is logged and is not
    fatal: the rest of the teardown, its terminations and its outcome are
    those of [Teardown] with [writeLogs] false. *)
Theorem Teardown_writeLogs_sliding_sync_only (w : World) (d : SlidingSyncDeployment) :
  outcome (Teardown w d true) = outcome (Teardown w d false)
  ∧ terminated (trace (Teardown w d true)) = terminated (trace (Teardown w d false))
  ∧ match slidingSync d with
    | Some c =>
      let lg := writeContainerLogs w c "container-sliding-sync.log" in
      trace (Teardown w d true)
        = trace lg ++ log_note (outcome lg) ++ trace (Teardown w d false)
      ∧ head (trace (Teardown w d false)) = Some (EvTerminate c)
      ∧ logs_copied (trace (Teardown w d true))
        = (if reaches_copy w c "container-sliding-sync.log"
           then [("container-sliding-sync.log", c)] else [])
    | None => Teardown w d true = Teardown w d false
    end.
Proof.
  unfold reaches_copy. teardown_cases w d; repeat split; reflexivity.
Qed.

(** The signals and waits of [Teardown]: none without tcpdump or after a
    fatal termination failure, otherwise an interrupt, then a wait. *)
Lemma Teardown_process_events (w : World) (d : SlidingSyncDeployment) (writeLogs : bool) :
  process_events (trace (Teardown w d writeLogs))
  = match tcpdump d with
    | Some cmd => if forallb (terminates_ok w) (owned d)
                  then [EvProcessSignal cmd Interrupt; EvCmdWait cmd] else []
    | None => []
    end.
Proof. destruct writeLogs; teardown_cases w d; reflexivity. Qed.

(** C8, as stated, fails: with packet capture enabled and a sliding sync
    container that will not stop, [Teardown] exits the process at the
    first [log.Fatalf]; tcpdump is never signalled nor waited for. *)
Lemma Teardown_fatal_leaves_tcpdump_running :
  RunNewDeployment goodWorld true
    = (trace (RunNewDeployment goodWorld true), Done goodDeployment)
  ∧ is_Some (tcpdump goodDeployment)
  ∧ outcome (Teardown stuckWorld goodDeployment false) = OsExit 1
  ∧ process_events (trace (Teardown stuckWorld goodDeployment false)) = []
  ∧ ¬ capture_stopped_by_teardown stuckWorld goodDeployment false.
Proof.
  split; [vm_compute; reflexivity|]. split; [by eexists|].
  split; [vm_compute; reflexivity|]. split; [vm_compute; reflexivity|].
  intros (cmd & _ & H). vm_compute in H. discriminate.
Qed.

(** C8, amended: when [RunNewDeployment] is asked to capture packets and
    returns a deployment, it has started tcpdump writing to the fixed file
    test.pcap.  [Teardown] stops it by sending it an interrupt signal and
    then waiting for it to exit, and by nothing else, exactly when every
    container termination before it succeeds, which is when [Teardown]
    returns; when a termination fails, [Teardown] exits the process
    before it gets to tcpdump, which is neither signalled nor waited
    for. *)
Theorem tcpdump_capture_lifecycle (w0 w : World) (writeLogs : bool)
    (tr0 : list Event) (d : SlidingSyncDeployment) :
  RunNewDeployment w0 true = (tr0, Done d) →
  ∃ cmd filter,
    tcpdump d = Some cmd
    ∧ cmd_path cmd = "tcpdump"
    ∧ cmd_args cmd = ["-i"; "any"; "-s"; "0"; filter; "-w"; "test.pcap"]
    ∧ EvCmdStart "tcpdump" (cmd_args cmd) ∈ tr0
    ∧ process_events (trace (Teardown w d writeLogs))
      = (if forallb (terminates_ok w) (owned d)
         then [EvProcessSignal cmd Interrupt; EvCmdWait cmd] else [])
    ∧ match outcome (Teardown w d writeLogs) with
      | Done _ => process_events (trace (Teardown w d writeLogs))
                  = [EvProcessSignal cmd Interrupt; EvCmdWait cmd]
      | _ => process_events (trace (Teardown w d writeLogs)) = []
      end.
Proof.
  intros H. apply RunNewDeployment_inv in H as (_ & _ & _ & _ & _ & _ & _ & Htcp).
  destruct Htcp as (filter & pid & Hcmd & Hin).
  eexists _, filter. split; [exact Hcmd|]. simpl.
  do 3 (split; [done|]).
  pose proof (Teardown_process_events w d writeLogs) as Hp. rewrite Hcmd in Hp.
  split; [exact Hp|].
  pose proof (Teardown_terminate_outcome w d writeLogs) as Ho.
  rewrite Ho, Hp. by destruct (forallb _ _).
Qed.

Lemma tcpdump_capture_lifecycle_witness :
  RunNewDeployment goodWorld true
    = (trace (RunNewDeployment goodWorld true), Done goodDeployment)
  ∧ ∃ cmd filter,
      tcpdump goodDeployment = Some cmd
      ∧ cmd_path cmd = "tcpdump"
      ∧ cmd_args cmd = ["-i"; "any"; "-s"; "0"; filter; "-w"; "test.pcap"]
      ∧ EvCmdStart "tcpdump" (cmd_args cmd) ∈ trace (RunNewDeployment goodWorld true)
      ∧ process_events (trace (Teardown goodWorld goodDeployment true))
        = (if forallb (terminates_ok goodWorld) (owned goodDeployment)
           then [EvProcessSignal cmd Interrupt; EvCmdWait cmd] else [])
      ∧ match outcome (Teardown goodWorld goodDeployment true) with
        | Done _ => process_events (trace (Teardown goodWorld goodDeployment true))
                    = [EvProcessSignal cmd Interrupt; EvCmdWait cmd]
        | _ => process_events (trace (Teardown goodWorld goodDeployment true)) = []
        end.
Proof.
  split; [vm_compute; reflexivity|].
  apply (tcpdump_capture_lifecycle goodWorld goodWorld true
           (trace (RunNewDeployment goodWorld true)) goodDeployment).
  vm_compute; reflexivity.
Defined.

End deploy.

(** ** Package [tests]: [main_test.go] *)
Module tests.

Local Open Scope nat_scope.

(** A [*deploy.SlidingSyncDeployment]: the pointer is what is shared. *)
Definition Ptr := nat.

(** How a call to [Deploy] ends: it returns a pointer, or [t.Fatalf] has
    ended the calling goroutine. *)
Inductive Result := Returned (d : Ptr) | Failed.

(** Where a goroutine stands in [Deploy]: one point per statement of the
    function, each a step of its own.  [RunNewDeployment] is called with
    the add-ons directory and the tcpdump setting; only whether it returns
    matters here. *)
Inductive PC :=
| Idle                                  (* outside Deploy *)
| AtLock                                (* ssMutex.Lock() *)
| AtCheck                               (* if ssDeployment != nil *)
| AtGetwd                               (* os.Getwd() *)
| AtRun (mitmProxyAddonsDir : string)   (* deploy.RunNewDeployment(...) *)
| AtAssign (d : Ptr)                    (* ssDeployment = ... *)
| AtUnlock (r : Result).                (* deferred ssMutex.Unlock() *)

Record Thread := { pc : PC; results : list Result }.

(** The globals of the test binary, the goroutines, and counters of the
    calls made so far.  [Deploy] is the only writer of [ssDeployment]; the
    cleanup of [TestMain] reads it under the lock. *)
Record State := {
  ssDeployment : option Ptr;
  ssMutex : option nat;          (* the goroutine holding the lock *)
  threads : list Thread;
  getwd_calls : nat;
  run_calls : nat;               (* calls to RunNewDeployment *)
  built : nat                    (* deployments RunNewDeployment has returned *)
}.

(** The outside: what the [n]-th call of [os.Getwd] answers, and whether
    the [n]-th call of [deploy.RunNewDeployment] returns (it fails the
    test otherwise).  The [n]-th call returns a fresh object, [n]. *)
Record Env := {
  os_Getwd : nat → string + string;
  RunNewDeployment_ok : nat → bool
}.

Definition with_thread (s : State) (t : nat) (th : Thread) : State :=
  {| ssDeployment := ssDeployment s; ssMutex := ssMutex s;
     threads := <[t := th]> (threads s);
     getwd_calls := getwd_calls s; run_calls := run_calls s; built := built s |}.

Definition goto (th : Thread) (p : PC) : Thread := {| pc := p; results := results th |}.

(** One step of goroutine [t] in [Deploy]; [None] when it cannot move
    (no such goroutine, or it waits for the lock). *)
Definition step (env : Env) (s : State) (t : nat) : option State :=
  match threads s !! t with
  | None => None
  | Some th =>
    match pc th with
    | Idle => Some (with_thread s t (goto th AtLock))
    | AtLock =>
      match ssMutex s with
      | Some _ => None
      | None =>
        Some {| ssDeployment := ssDeployment s; ssMutex := Some t;
                threads := <[t := goto th AtCheck]> (threads s);
                getwd_calls := getwd_calls s; run_calls := run_calls s;
                built := built s |}
      end
    | AtCheck =>
      match ssDeployment s with
      | Some d => Some (with_thread s t (goto th (AtUnlock (Returned d))))
      | None => Some (with_thread s t (goto th AtGetwd))
      end
    | AtGetwd =>
      let next := match os_Getwd env (getwd_calls s) with
                  | inl workingDir => AtRun (workingDir +:+ "/mitmproxy_addons")
                  | inr _ => AtUnlock Failed
                  end in
      Some {| ssDeployment := ssDeployment s; ssMutex := ssMutex s;
              threads := <[t := goto th next]> (threads s);
              getwd_calls := S (getwd_calls s); run_calls := run_calls s;
              built := built s |}
    | AtRun _ =>
      if RunNewDeployment_ok env (run_calls s)
      then Some {| ssDeployment := ssDeployment s; ssMutex := ssMutex s;
                   threads := <[t := goto th (AtAssign (run_calls s))]> (threads s);
                   getwd_calls := getwd_calls s; run_calls := S (run_calls s);
                   built := S (built s) |}
      else Some {| ssDeployment := ssDeployment s; ssMutex := ssMutex s;
                   threads := <[t := goto th (AtUnlock Failed)]> (threads s);
                   getwd_calls := getwd_calls s; run_calls := S (run_calls s);
                   built := built s |}
    | AtAssign d =>
      Some {| ssDeployment := Some d; ssMutex := ssMutex s;
              threads := <[t := goto th (AtUnlock (Returned d))]> (threads s);
              getwd_calls := getwd_calls s; run_calls := run_calls s;
              built := built s |}
    | AtUnlock r =>
      Some {| ssDeployment := ssDeployment s; ssMutex := None;
              threads := <[t := {| pc := Idle; results := results th ++ [r] |}]> (threads s);
              getwd_calls := getwd_calls s; run_calls := run_calls s;
              built := built s |}
    end
  end.

(** A schedule names the goroutine that moves next; a goroutine that
    cannot move leaves the state as it is. *)
Fixpoint run (env : Env) (s : State) (sched : list nat) : State :=
  match sched with
  | [] => s
  | t :: sched' => run env (default s (step env s t)) sched'
  end.

(** After [TestMain]: no deployment, the lock free, [n] goroutines. *)
Definition init (n : nat) : State :=
  {| ssDeployment := None; ssMutex := None;
     threads := replicate n {| pc := Idle; results := [] |};
     getwd_calls := 0; run_calls := 0; built := 0 |}.

Definition is_idle (p : PC) : bool := match p with Idle => true | _ => false end.

(** Let goroutine [t] move until it is outside [Deploy] again. *)
Fixpoint finish (env : Env) (s : State) (t : nat) (fuel : nat) : State :=
  match fuel with
  | O => s
  | S fuel' =>
    match threads s !! t with
    | Some th => if is_idle (pc th) then s
                 else finish env (default s (step env s t)) t fuel'
    | None => s
    end
  end.

(** One whole call of [Deploy] by an idle goroutine [t], undisturbed: it
    enters, then needs six more steps at most. *)
Definition Deploy (env : Env) (s : State) (t : nat) : State :=
  finish env (default s (step env s t)) t 6.

(** The results of the calls goroutine [t] has finished. *)
Definition results_of (s : State) (t : nat) : list Result :=
  match threads s !! t with
  | Some th => results th
  | None => []
  end.

(** *** Invariant *)

(** Between [Lock] and [Unlock]. *)
Definition in_critical (p : PC) : bool :=
  match p with
  | Idle | AtLock => false
  | _ => true
  end.

(** Past the nil check, on the way to assigning. *)
Definition building (p : PC) : bool :=
  match p with
  | AtGetwd | AtRun _ | AtAssign _ => true
  | _ => false
  end.

Definition assigning (p : PC) : bool :=
  match p with
  | AtAssign _ => true
  | _ => false
  end.

Record Inv (s : State) : Prop := {
  (* only the holder of the lock is between Lock and Unlock *)
  inv_mutex : ∀ t th, threads s !! t = Some th → in_critical (pc th) = true →
              ssMutex s = Some t;
  (* once cached: nobody is building, and whoever returns, returns it *)
  inv_cached : ∀ p t th, ssDeployment s = Some p → threads s !! t = Some th →
               building (pc th) = false ∧ ∀ r, pc th = AtUnlock r → r = Returned p;
  (* not cached yet: nobody is about to return a pointer *)
  inv_uncached : ∀ t th q, ssDeployment s = None → threads s !! t = Some th →
                 pc th ≠ AtUnlock (Returned q);
  (* whatever was returned is the cached pointer *)
  inv_results : ∀ t th q, threads s !! t = Some th → Returned q ∈ results th →
                ssDeployment s = Some q;
  (* one deployment built once cached or about to be assigned, none before *)
  inv_built_cached : ∀ p, ssDeployment s = Some p → built s = 1;
  inv_built_assigning : ∀ t th, threads s !! t = Some th → assigning (pc th) = true →
                        built s = 1;
  inv_built_none : ssDeployment s = None →
                   (∀ t th, threads s !! t = Some th → assigning (pc th) = false) →
                   built s = 0
}.

(** The state an undisturbed call leaves behind. *)
Definition after_Deploy (env : Env) (s : State) (t : nat) (th : Thread) : State :=
  match ssDeployment s with
  | Some p =>
    {| ssDeployment := Some p; ssMutex := None;
       threads := <[t := {| pc := Idle; results := results th ++ [Returned p] |}]> (threads s);
       getwd_calls := getwd_calls s; run_calls := run_calls s; built := built s |}
  | None =>
    match os_Getwd env (getwd_calls s) with
    | inl _ =>
      if RunNewDeployment_ok env (run_calls s)
      then {| ssDeployment := Some (run_calls s); ssMutex := None;
              threads := <[t := {| pc := Idle;
                                   results := results th ++ [Returned (run_calls s)] |}]>
                           (threads s);
              getwd_calls := S (getwd_calls s); run_calls := S (run_calls s);
              built := S (built s) |}
      else {| ssDeployment := None; ssMutex := None;
              threads := <[t := {| pc := Idle; results := results th ++ [Failed] |}]>
                           (threads s);
              getwd_calls := S (getwd_calls s); run_calls := S (run_calls s);
              built := built s |}
    | inr _ =>
      {| ssDeployment := None; ssMutex := None;
         threads := <[t := {| pc := Idle; results := results th ++ [Failed] |}]> (threads s);
         getwd_calls := S (getwd_calls s); run_calls := run_calls s; built := built s |}
    end
  end.

(** The first call can build: the working directory is known and
    [RunNewDeployment] returns. *)
Definition first_ok (env : Env) : bool :=
  match os_Getwd env 0 with
  | inl _ => RunNewDeployment_ok env 0
  | inr _ => false
  end.

(** A world in which nothing fails. *)
Definition goodEnv : Env :=
  {| os_Getwd := λ _, inl "/src/complement-crypto/tests";
     RunNewDeployment_ok := λ _, true |}.

(** Whoever holds the lock is between [Lock] and [Unlock]. *)
Definition HolderInside (s : State) : Prop :=
  ∀ t, ssMutex s = Some t →
       ∃ th, threads s !! t = Some th ∧ in_critical (pc th) = true.




Lemma init_thread n t th : threads (init n) !! t = Some th → th = {| pc := Idle; results := [] |}.
Proof. simpl. intros H. by apply lookup_replicate in H as [-> _]. Qed.

Lemma Inv_init n : Inv (init n).
Proof.
  split.
  - intros t th H%init_thread. by subst.
  - intros p t th H. discriminate.
  - intros t th q _ H%init_thread. by subst.
  - intros t th q H%init_thread. subst. simpl. intros H. by apply elem_of_nil in H.
  - discriminate.
  - intros t th H%init_thread. by subst.
  - done.
Qed.

Lemma lookup_updated (l : list Thread) t th t' th' :
  <[t := th]> l !! t' = Some th' →
  (t' = t ∧ th' = th) ∨ (t' ≠ t ∧ l !! t' = Some th').
Proof.
  intros H. destruct (decide (t = t')) as [->|Hne].
  - left. apply list_lookup_insert_Some in H as [(_ & <- & _)|[? _]]; done.
  - right. rewrite list_lookup_insert_ne in H by done. done.
Qed.

Lemma no_assigning_before (l : list Thread) t th new :
  l !! t = Some th → assigning (pc th) = false →
  (∀ t0 th0, <[t:=new]> l !! t0 = Some th0 → assigning (pc th0) = false) →
  ∀ t0 th0, l !! t0 = Some th0 → assigning (pc th0) = false.
Proof.
  intros Hth Hna H t0 th0 H0. destruct (decide (t0 = t)) as [->|Hne].
  - by simplify_eq.
  - apply (H t0). by rewrite list_lookup_insert_ne.
Qed.

Ltac inv_auto HI :=
  destruct HI as [Hmx Hca Hun Hre Hb1 Hb2 Hb3];
  split; simpl;
  repeat match goal with
         | |- ∀ _, _ => intro
         | H : <[_ := _]> _ !! _ = Some _ |- _ =>
           apply lookup_updated in H as [[-> ->]|[? H]]; simpl in *
         end.


Ltac saturate Hmx Hca Hun Hre Hb2 :=
  repeat match goal with
         | H : threads ?s !! ?t0 = Some ?th0 |- _ =>
           lazymatch goal with
           | _ : in_critical (pc th0) = true → ssMutex s = Some t0 |- _ => fail
           | _ => pose proof (Hmx t0 th0 H);
                  pose proof (λ p Hd, Hca p t0 th0 Hd H);
                  pose proof (λ Hd q, Hun t0 th0 q Hd H);
                  pose proof (λ q, Hre t0 th0 q H);
                  pose proof (Hb2 t0 th0 H)
           end
         end;
  repeat match goal with
         | Hd : ssDeployment ?s = Some ?p, H : ∀ p, ssDeployment ?s = Some p → _ |- _ =>
           specialize (H p Hd)
         | Hd : ssDeployment ?s = None, H : ssDeployment ?s = None → _ |- _ =>
           specialize (H Hd)
         | Hin : Returned ?q ∈ results ?th, H : ∀ q, Returned q ∈ results ?th → _ |- _ =>
           specialize (H q Hin)
         end.

Ltac close_inv Hb3 :=
  repeat match goal with
         | H : pc ?th = _ |- _ => rewrite H in *
         end;
  simpl in *;
  try done; try congruence;
  destruct_and?;
  try done; try congruence;
  try (intuition (try done; try congruence; eauto 3); fail);
  try (first [apply Hb3; [done|] | apply Hb3]; eapply no_assigning_before; [eassumption| |eassumption];
       repeat match goal with
              | H : pc ?th = _ |- _ => rewrite H in *
              end; done).


Lemma uncached_when_building s t th :
  Inv s → threads s !! t = Some th → building (pc th) = true → ssDeployment s = None.
Proof.
  intros HI Hth Hb. destruct (ssDeployment s) as [p|] eqn:Hd; [|done].
  destruct (inv_cached s HI p t th Hd Hth) as [Hf _]. congruence.
Qed.

(** Another goroutine is outside the critical section while [t] is in it. *)
Lemma other_not_critical s t th t0 th0 :
  Inv s → threads s !! t = Some th → in_critical (pc th) = true →
  threads s !! t0 = Some th0 → t0 ≠ t → in_critical (pc th0) = false.
Proof.
  intros HI Hth Hc Hth0 Hne. destruct (in_critical (pc th0)) eqn:Hc0; [|done].
  pose proof (inv_mutex s HI t th Hth Hc).
  pose proof (inv_mutex s HI t0 th0 Hth0 Hc0). congruence.
Qed.

Lemma built_zero_when_building s t th :
  Inv s → threads s !! t = Some th →
  building (pc th) = true → assigning (pc th) = false →
  built s = 0.
Proof.
  intros HI Hth Hb Ha.
  apply (inv_built_none s HI); [by eapply uncached_when_building|].
  intros t0 th0 Hth0. destruct (decide (t0 = t)) as [->|Hne]; [by simplify_eq|].
  assert (in_critical (pc th0) = false) as Hc.
  { eapply (other_not_critical s t th); eauto. by destruct (pc th). }
  by destruct (pc th0).
Qed.

Ltac new_thread_assigning :=
  match goal with
  | H : ∀ t0 th0, <[?t:=?new]> ?l !! t0 = Some th0 → assigning (pc th0) = false,
    Hth : ?l !! ?t = Some _ |- _ =>
    let E := fresh in
    assert (E : <[t:=new]> l !! t = Some new)
      by (apply list_lookup_insert_eq; by eapply lookup_lt_Some);
    specialize (H t new E); simpl in H; discriminate
  end.

(** Use that every other goroutine is outside the critical section. *)
Ltac others_outside HI Hth :=
  repeat match goal with
         | H : threads ?s !! ?t0 = Some ?th0, Hne : ?t0 ≠ ?t |- _ =>
           lazymatch goal with
           | _ : pc th0 = _ |- _ => fail
           | _ => let Hc := fresh "Hc" in
                  assert (Hc : in_critical (pc th0) = false)
                    by (eapply (other_not_critical s t _ t0 th0 HI Hth); eauto;
                        repeat match goal with
                               | Hp : pc _ = _ |- _ => rewrite Hp
                               end; done);
                  destruct (pc th0) eqn:?; try discriminate Hc
           end
         end.

Lemma Inv_step env s t s' : Inv s → step env s t = Some s' → Inv s'.
Proof.
  intros HI. unfold step.
  destruct (threads s !! t) as [th|] eqn:Hth; [|done].
  destruct (pc th) eqn:Hpc.
  - (* Idle *)
    intros [= <-]. unfold with_thread.
    inv_auto HI; saturate Hmx Hca Hun Hre Hb2; close_inv Hb3.
  - (* AtLock *)
    destruct (ssMutex s) eqn:Hmu; [done|]. intros [= <-].
    inv_auto HI; saturate Hmx Hca Hun Hre Hb2; close_inv Hb3.
  - (* AtCheck *)
    destruct (ssDeployment s) eqn:Hd; intros [= <-]; unfold with_thread;
    inv_auto HI; saturate Hmx Hca Hun Hre Hb2; close_inv Hb3.
  - (* AtGetwd *)
    pose proof (uncached_when_building s t th HI Hth) as Hnone.
    rewrite Hpc in Hnone. specialize (Hnone eq_refl).
    intros [= <-]. destruct (os_Getwd env (getwd_calls s));
    inv_auto HI; saturate Hmx Hca Hun Hre Hb2; close_inv Hb3.
  - (* AtRun *)
    pose proof (built_zero_when_building s t th HI Hth) as Hzero.
    rewrite Hpc in Hzero. specialize (Hzero eq_refl eq_refl).
    pose proof (uncached_when_building s t th HI Hth) as Hnone.
    rewrite Hpc in Hnone. specialize (Hnone eq_refl).
    destruct (RunNewDeployment_ok env (run_calls s)); intros [= <-];
    inv_auto HI; try new_thread_assigning; saturate Hmx Hca Hun Hre Hb2; close_inv Hb3.
  - (* AtAssign *)
    pose proof (uncached_when_building s t th HI Hth) as Hnone.
    rewrite Hpc in Hnone. specialize (Hnone eq_refl).
    intros [= <-]. pose proof HI as HI'.
    inv_auto HI; try new_thread_assigning; others_outside HI' Hth;
      saturate Hmx Hca Hun Hre Hb2; close_inv Hb3.
  - (* AtUnlock *)
    intros [= <-]. pose proof HI as HI'.
    inv_auto HI; try new_thread_assigning; others_outside HI' Hth;
      saturate Hmx Hca Hun Hre Hb2; close_inv Hb3.
    (* the result being appended is the cached pointer *)
    match goal with
    | Hin : Returned ?q ∈ results th ++ [?r] |- _ =>
      apply elem_of_app in Hin as [Hin|Hin]; [by eapply Hre|];
      apply list_elem_of_singleton in Hin as <-
    end.
    destruct (ssDeployment s) as [p|] eqn:Hd.
    + destruct (Hca p t th eq_refl Hth) as [_ Hr]. rewrite Hpc in Hr.
      specialize (Hr _ eq_refl). congruence.
    + exfalso. eapply (Hun t th); [done..|]. by rewrite Hpc.
Qed.

Lemma Inv_run env sched : ∀ s, Inv s → Inv (run env s sched).
Proof.
  induction sched as [|t sched IH]; intros s HI; simpl; [done|].
  apply IH. destruct (step env s t) as [s'|] eqn:Hs; simpl; [|done].
  by eapply Inv_step.
Qed.

(** *** Once cached *)







Lemma HolderInside_init n : HolderInside (init n).
Proof. intros t. discriminate. Qed.

Lemma HolderInside_step env s t s' :
  Inv s → HolderInside s → step env s t = Some s' → HolderInside s'.
Proof.
  intros HI HH. unfold step.
  destruct (threads s !! t) as [th|] eqn:Hth; [|done].
  pose proof (lookup_lt_Some _ _ _ Hth) as Hlt.
  assert (Hother : ∀ (new : Thread) h, ssMutex s = Some h → in_critical (pc th) = false →
            ∃ th', <[t := new]> (threads s) !! h = Some th' ∧ in_critical (pc th') = true).
  { intros new h Hm Hc. destruct (HH h Hm) as (th' & Hth' & Hc').
    exists th'. split; [|done]. rewrite list_lookup_insert_ne; [done|].
    intros ->. simplify_eq. congruence. }
  assert (Hself : ∀ (new : Thread) h, ssMutex s = Some h → in_critical (pc th) = true →
            in_critical (pc new) = true →
            ∃ th', <[t := new]> (threads s) !! h = Some th' ∧ in_critical (pc th') = true).
  { intros new h Hm Hc Hn. pose proof (inv_mutex s HI t th Hth Hc). simplify_eq.
    exists new. split; [|done]. by apply list_lookup_insert_eq. }
  destruct (pc th) eqn:Hpc.
  - intros [= <-] h Hm. simpl in *. by apply Hother.
  - destruct (ssMutex s) eqn:Hmu; [done|]. intros [= <-] h [= <-]. simpl.
    eexists. split; [by apply list_lookup_insert_eq|done].
  - destruct (ssDeployment s); intros [= <-] h Hm; simpl in *; by apply Hself.
  - intros [= <-] h Hm. simpl in *. apply Hself; [done..|].
    by destruct (os_Getwd env (getwd_calls s)).
  - destruct (RunNewDeployment_ok env (run_calls s)); intros [= <-] h Hm; simpl in *;
      by apply Hself.
  - intros [= <-] h Hm. simpl in *. by apply Hself.
  - intros [= <-] h Hm. simpl in *. discriminate.
Qed.

Lemma HolderInside_run env sched : ∀ s, Inv s → HolderInside s → HolderInside (run env s sched).
Proof.
  induction sched as [|t sched IH]; intros s HI HH; simpl; [done|].
  destruct (step env s t) as [s'|] eqn:Hs; simpl; [|by apply IH].
  apply IH; [by eapply Inv_step|by eapply HolderInside_step].
Qed.

Lemma finish_moving env s t fuel th :
  threads s !! t = Some th → is_idle (pc th) = false →
  finish env s t (S fuel) = finish env (default s (step env s t)) t fuel.
Proof. intros Hth Hi. simpl. by rewrite Hth, Hi. Qed.

Lemma finish_idle env s t fuel th :
  threads s !! t = Some th → is_idle (pc th) = true → finish env s t fuel = s.
Proof. intros Hth Hi. destruct fuel; simpl; [done|]. by rewrite Hth, Hi. Qed.

Arguments finish : simpl never.

Ltac thread_lookup Hlt :=
  rewrite list_lookup_insert_eq by (rewrite ?length_insert; exact Hlt).

Ltac tidy :=
  cbn [pc goto results default from_option id ssMutex ssDeployment getwd_calls run_calls
       built threads].

Ltac advance Hlt :=
  erewrite finish_moving;
    [ | cbn [threads]; thread_lookup Hlt; reflexivity | reflexivity ];
  unfold step at 1; cbn [threads]; thread_lookup Hlt;
  cbn [pc goto results default from_option id ssMutex ssDeployment getwd_calls run_calls
       built threads];
  unfold with_thread;
  cbn [pc goto results default from_option id ssMutex ssDeployment getwd_calls run_calls
       built threads].

Ltac arrive Hlt :=
  erewrite finish_idle;
    [ | cbn [threads]; thread_lookup Hlt; reflexivity | reflexivity ];
  rewrite ?list_insert_insert_eq.

Lemma Deploy_idle env s t th :
  threads s !! t = Some th → pc th = Idle → ssMutex s = None →
  Deploy env s t = after_Deploy env s t th.
Proof.
  intros Hth Hpc Hmu. pose proof (lookup_lt_Some _ _ _ Hth) as Hlt.
  destruct s as [d m l g r b]. cbn [threads ssMutex] in *. subst m.
  unfold Deploy, after_Deploy. unfold step at 1. cbn [threads]. rewrite Hth, Hpc.
  cbn [default from_option id with_thread ssMutex ssDeployment getwd_calls run_calls built
       threads].
  unfold with_thread; cbn [threads ssMutex ssDeployment getwd_calls run_calls built].
  advance Hlt.
  destruct d as [p|].
  - advance Hlt. advance Hlt. arrive Hlt. reflexivity.
  - advance Hlt. advance Hlt. destruct (os_Getwd env g) as [dir|err].
    + advance Hlt. destruct (RunNewDeployment_ok env r); tidy.
      * advance Hlt. advance Hlt. arrive Hlt. reflexivity.
      * advance Hlt. arrive Hlt. reflexivity.
    + advance Hlt. arrive Hlt. reflexivity.
Qed.


(** The holder of the lock, left to run, is outside [Deploy] again after
    five steps at most, with one more result and the lock free. *)
Lemma finish_holder env d l g r b t th :
  l !! t = Some th → in_critical (pc th) = true →
  ∃ res d' g' r' b',
    finish env {| ssDeployment := d; ssMutex := Some t; threads := l;
                  getwd_calls := g; run_calls := r; built := b |} t 5
    = {| ssDeployment := d'; ssMutex := None;
         threads := <[t := {| pc := Idle; results := results th ++ [res] |}]> l;
         getwd_calls := g'; run_calls := r'; built := b' |}.
Proof.
  intros Hth Hc. pose proof (lookup_lt_Some _ _ _ Hth) as Hlt.
  erewrite finish_moving; [|exact Hth|by destruct (pc th)].
  unfold step at 1. cbn [threads]. rewrite Hth.
  destruct (pc th) eqn:Hpc; try discriminate Hc; tidy; unfold with_thread; tidy.
  - (* AtCheck *)
    destruct d as [p|]; tidy.
    + advance Hlt. arrive Hlt. by eexists _, _, _, _, _.
    + advance Hlt. destruct (os_Getwd env g); tidy.
      * advance Hlt. destruct (RunNewDeployment_ok env r); tidy.
        -- advance Hlt. advance Hlt. arrive Hlt. by eexists _, _, _, _, _.
        -- advance Hlt. arrive Hlt. by eexists _, _, _, _, _.
      * advance Hlt. arrive Hlt. by eexists _, _, _, _, _.
  - (* AtGetwd *)
    destruct (os_Getwd env g); tidy.
    + advance Hlt. destruct (RunNewDeployment_ok env r); tidy.
      * advance Hlt. advance Hlt. arrive Hlt. by eexists _, _, _, _, _.
      * advance Hlt. arrive Hlt. by eexists _, _, _, _, _.
    + advance Hlt. arrive Hlt. by eexists _, _, _, _, _.
  - (* AtRun *)
    destruct (RunNewDeployment_ok env r); tidy.
    + advance Hlt. advance Hlt. arrive Hlt. by eexists _, _, _, _, _.
    + advance Hlt. arrive Hlt. by eexists _, _, _, _, _.
  - (* AtAssign *)
    advance Hlt. arrive Hlt. by eexists _, _, _, _, _.
  - (* AtUnlock *)
    arrive Hlt. by eexists _, _, _, _, _.
Qed.






End tests.

(** ** [tests]: the request body of [CreateNewEncryptedRoom] *)
Module room.

(** The values the request body holds: [map[string]interface{}] with
    strings, ints, [[]string], nested maps and [[]map[string]interface{}]. *)
Local Unset Elimination Schemes.
Inductive Value :=
| VString (s : string)
| VInt (n : Z)
| VStrings (l : list string)
| VObject (m : gmap string Value)
| VObjects (l : list (gmap string Value)).
Local Set Elimination Schemes.

(** [map[string]interface{}] *)
Abbreviation Object := (gmap string Value).

(** [EncRoomOption = func(reqBody map[string]interface{})]: the option
    mutates the map it is given; [None] is a run-time panic (a failed type
    assertion or an index out of range). *)
Definition EncRoomOption := Object → option Object.

(** [setPreset]: [reqBody["preset"] = preset] *)
Definition setPreset (preset : string) : EncRoomOption :=
  λ reqBody, Some (<["preset" := VString preset]> reqBody).

Definition PresetPrivateChat : EncRoomOption := setPreset "private_chat".
Definition PresetTrustedPrivateChat : EncRoomOption := setPreset "trusted_private_chat".
Definition PresetPublicChat : EncRoomOption := setPreset "public_chat".

(** [Invite]: [reqBody["invite"] = invite] *)
Definition Invite (invite : list string) : EncRoomOption :=
  λ reqBody, Some (<["invite" := VStrings invite]> reqBody).

(** [RotationPeriodMsgs]: the content map of the first initial-state event
    is updated in place; maps and slices are shared with [reqBody], so the
    update shows in the body. *)
Definition RotationPeriodMsgs (numMsgs : Z) : EncRoomOption :=
  λ reqBody,
    match reqBody !! "initial_state" with
    | Some (VObjects initial_state) =>
      match initial_state !! 0%nat with
      | Some event =>
        match event !! "content" with
        | Some (VObject content) =>
          let content' := <["rotation_period_msgs" := VInt numMsgs]> content in
          let event' := <["content" := VObject content']> event in
          Some (<["initial_state" := VObjects (<[0%nat := event']> initial_state)]> reqBody)
        | _ => None
        end
      | None => None
      end
    | _ => None
    end.

(** The body [CreateNewEncryptedRoom] starts from; [name] is [t.Name()]. *)
Definition initialBody (name : string) : Object :=
  {[ "name" := VString name;
     "preset" := VString "private_chat";
     "invite" := VStrings [];
     "initial_state" :=
       VObjects [ {[ "type" := VString "m.room.encryption";
                     "state_key" := VString "";
                     "content" := VObject {[ "algorithm" := VString "m.megolm.v1.aes-sha2" ]} ]} ] ]}.

(** [for _, option := range options { option(reqBody) }] *)
Fixpoint applyOptions (options : list EncRoomOption) (reqBody : Object) : option Object :=
  match options with
  | [] => Some reqBody
  | option :: rest =>
    match option reqBody with
    | Some reqBody' => applyOptions rest reqBody'
    | None => None
    end
  end.

(** The body handed to [creator.MustCreateRoom]. *)
Definition requestBody (name : string) (options : list EncRoomOption) : option Object :=
  applyOptions options (initialBody name).

(** [CreateNewEncryptedRoom]: the room id is whatever [MustCreateRoom]
    answers for the body. *)
Definition CreateNewEncryptedRoom (MustCreateRoom : Object → string)
    (name : string) (options : list EncRoomOption) : option string :=
  MustCreateRoom <$> requestBody name options.

(** The options [EncRoomOptions] provides. *)
Inductive provided : EncRoomOption → Prop :=
| provided_PresetPrivateChat : provided PresetPrivateChat
| provided_PresetTrustedPrivateChat : provided PresetTrustedPrivateChat
| provided_PresetPublicChat : provided PresetPublicChat
| provided_Invite invite : provided (Invite invite)
| provided_RotationPeriodMsgs numMsgs : provided (RotationPeriodMsgs numMsgs).

(** An [m.room.encryption] state event with empty state key and the
    megolm algorithm. *)
Definition is_encryption_event (event : Object) : Prop :=
  event !! "type" = Some (VString "m.room.encryption")
  ∧ event !! "state_key" = Some (VString "")
  ∧ ∃ content, event !! "content" = Some (VObject content)
               ∧ content !! "algorithm" = Some (VString "m.megolm.v1.aes-sha2").

(** The body's [initial_state] is exactly one encryption event. *)
Definition has_encryption_event (reqBody : Object) : Prop :=
  ∃ event, reqBody !! "initial_state" = Some (VObjects [event])
           ∧ is_encryption_event event.

Lemma option_keeps_encryption_event option reqBody :
  provided option → has_encryption_event reqBody →
  ∃ reqBody', option reqBody = Some reqBody' ∧ has_encryption_event reqBody'.
Proof.
  intros Ho (event & Hinit & Hty & Hsk & content & Hc & Ha).
  destruct Ho as [| | |invite|numMsgs].
  1-4: (eexists; split; [reflexivity|]; exists event;
        split; [by rewrite lookup_insert_ne|]; repeat split; eauto).
  unfold RotationPeriodMsgs. rewrite Hinit. simpl. rewrite Hc.
  eexists. split; [reflexivity|].
  eexists. split; [by rewrite lookup_insert_eq|].
  split; [by rewrite lookup_insert_ne|]. split; [by rewrite lookup_insert_ne|].
  eexists. split; [by rewrite lookup_insert_eq|]. by rewrite lookup_insert_ne.
Qed.

Lemma initialBody_has_encryption_event name : has_encryption_event (initialBody name).
Proof.
  eexists. split; [reflexivity|]. split; [reflexivity|]. split; [reflexivity|].
  eexists. split; reflexivity.
Qed.

Lemma applyOptions_keeps options : ∀ reqBody,
  Forall provided options → has_encryption_event reqBody →
  ∃ reqBody', applyOptions options reqBody = Some reqBody' ∧ has_encryption_event reqBody'.
Proof.
  induction options as [|o rest IH]; intros reqBody Hall Hev; simpl.
  - eauto.
  - apply Forall_cons in Hall as [Ho Hrest].
    destruct (option_keeps_encryption_event o reqBody Ho Hev) as (b' & -> & Hev').
    by apply IH.
Qed.

(** C9: whatever provided options are passed, in any number and order,
    [CreateNewEncryptedRoom] does not panic and the body it hands to
    [MustCreateRoom] has an [initial_state] holding the [m.room.encryption]
    event with empty state key and algorithm [m.megolm.v1.aes-sha2]; the
    room's name is left alone too. *)
Theorem CreateNewEncryptedRoom_keeps_encryption_event (name : string)
    (options : list EncRoomOption) :
  Forall provided options →
  ∃ reqBody,
    requestBody name options = Some reqBody
    ∧ has_encryption_event reqBody
    ∧ reqBody !! "name" = Some (VString name)
    ∧ ∀ MustCreateRoom,
        CreateNewEncryptedRoom MustCreateRoom name options = Some (MustCreateRoom reqBody).
Proof.
  intros Hall.
  assert (Hname : ∀ opts body, Forall provided opts →
            body !! "name" = Some (VString name) →
            ∀ body', applyOptions opts body = Some body' →
                     body' !! "name" = Some (VString name)).
  { induction opts as [|o rest IH]; intros body Hp Hn body'; simpl.
    - by intros [= <-].
    - apply Forall_cons in Hp as [Ho Hrest].
      destruct (o body) as [b1|] eqn:Hob; [|done].
      apply IH; [done|].
      destruct Ho; try (injection Hob as <-; by rewrite lookup_insert_ne).
      unfold RotationPeriodMsgs in Hob.
      repeat case_match; try discriminate. injection Hob as <-.
      by rewrite lookup_insert_ne. }
  destruct (applyOptions_keeps options (initialBody name) Hall
              (initialBody_has_encryption_event name)) as (reqBody & Hb & Hev).
  exists reqBody. split; [done|]. split; [done|]. split.
  - eapply (Hname options (initialBody name)); [done| |exact Hb].
    unfold initialBody. by rewrite lookup_insert_eq.
  - intros f. unfold CreateNewEncryptedRoom, requestBody. by rewrite Hb.
Qed.

(** The options of [TestToDeviceMessagesAreBatched]. *)
Lemma CreateNewEncryptedRoom_keeps_encryption_event_witness :
  Forall provided [RotationPeriodMsgs 1; PresetPublicChat]
  ∧ ∃ reqBody,
      requestBody "TestToDeviceMessagesAreBatched" [RotationPeriodMsgs 1; PresetPublicChat]
      = Some reqBody
      ∧ has_encryption_event reqBody
      ∧ reqBody !! "name" = Some (VString "TestToDeviceMessagesAreBatched")
      ∧ ∀ MustCreateRoom,
          CreateNewEncryptedRoom MustCreateRoom "TestToDeviceMessagesAreBatched"
            [RotationPeriodMsgs 1; PresetPublicChat]
          = Some (MustCreateRoom reqBody).
Proof.
  assert (H : Forall provided [RotationPeriodMsgs 1; PresetPublicChat])
    by (repeat constructor).
  split; [exact H|].
  exact (CreateNewEncryptedRoom_keeps_encryption_event
           "TestToDeviceMessagesAreBatched" [RotationPeriodMsgs 1; PresetPublicChat] H).
Defined.

End room.

(** ** Package [mautrixgo] *)
Module mautrixgo.

(** [api.ClientCreationOpts], the fields the package reads. *)
Record ClientCreationOpts := {
  BaseURL : string;
  UserID : string;
  Password : string;
  PersistentStorage : bool
}.

(** [MautrixClient]: pointers to the mautrix client and to the crypto
    helper, and the options the client was created with. *)
Record MautrixClient := {
  client : nat;
  opts : ClientCreationOpts;
  cryptoHelper : nat
}.

(** What the methods can touch: the crypto helpers ([Close] calls, by
    receiver, in order), the test handle [t] (what was logged on it), and
    the file system (paths removed). *)
Record World := {
  closed : list nat;
  t_log : list string;
  removed : list string
}.

(** [ct.TestLike]: the test a method is called for. *)
Inductive TestLike := Test (name : string).

(** [c.cryptoHelper.Close()] *)
Definition CryptoHelper_Close (helper : nat) (w : World) : World :=
  {| closed := closed w ++ [helper]; t_log := t_log w; removed := removed w |}.

(** [func (c *MautrixClient) Close(t ct.TestLike)] *)
Definition Close (c : MautrixClient) (t : TestLike) (w : World) : World :=
  CryptoHelper_Close (cryptoHelper c) w.

(** [func (c *MautrixClient) ForceClose(t ct.TestLike)] *)
Definition ForceClose (c : MautrixClient) (t : TestLike) (w : World) : World :=
  Close c t w.

(** [func (c *MautrixClient) DeletePersistentStorage(t ct.TestLike)] *)
Definition DeletePersistentStorage (c : MautrixClient) (t : TestLike) (w : World) : World :=
  {| closed := closed w; t_log := t_log w; removed := removed w ++ ["mautrix-go.db"] |}.

(** In the spec's words: the crypto helper is closed, and nothing else
    happens. *)
Definition closes_crypto_helper_only (c : MautrixClient) (w : World) : World :=
  {| closed := closed w ++ [cryptoHelper c]; t_log := t_log w; removed := removed w |}.

(** C10: for every client and every world, [ForceClose] does what [Close]
    does, and what both do is close the crypto helper, once, and nothing
    else: nothing is logged on [t], no file is removed. *)
Theorem ForceClose_is_Close (c : MautrixClient) (t : TestLike) (w : World) :
  ForceClose c t w = Close c t w
  ∧ Close c t w = closes_crypto_helper_only c w
  ∧ closed (ForceClose c t w) = closed w ++ [cryptoHelper c]
  ∧ t_log (ForceClose c t w) = t_log w
  ∧ removed (ForceClose c t w) = removed w.
Proof. repeat split. Qed.

End mautrixgo.

(** ** The reverse proxy's status-code rule *)
Module proxy.

Local Open Scope nat_scope.

(** Modelled from the spec: a request as the proxy's filters see it; the
    proxy is not part of these sources. *)
Record Request := {
  url : string;                 (* path and query *)
  header_values : list string
}.

(** Modelled from the spec: a filter predicate of the absent proxy,
    "a URL-pattern predicate ([~u <regex>]) matched against the request
    path+query, and a header-value predicate ([~hq <value>])". *)
Inductive Predicate :=
| U (regex : string)
| HQ (value : string).

(** Modelled from the spec: the status-code rule of a rule push to the
    absent proxy,
    [{"return_status":..,"filter":..,"block_request":..,"count":..}]. *)
Record StatusCodeRule := {
  return_status : Z;
  filter : list Predicate;
  block_request : bool;
  count : option nat            (* the match budget; absent = unlimited *)
}.

(** Modelled from the spec: what the absent proxy does to one request:
    the injected action (a status code, with or without blocking), or
    "pass through unmodified". *)
Inductive Verdict :=
| Injected (status : Z) (blocked : bool)
| PassThrough.

Definition is_injected (v : Verdict) : bool :=
  match v with
  | Injected _ _ => true
  | PassThrough => false
  end.

(** The status-code rule of [TestToDeviceMessagesArentLostWhenKeysQueryFails],
    for a token [tok], and a matcher that looks for the URL fragment and
    for the token among the header values. *)
Definition keysQueryRule (tok : string) : StatusCodeRule :=
  {| return_status := 504;
     filter := [U ".*/keys/query.*"; HQ tok];
     block_request := true;
     count := Some 3 |}.

Definition fragment_matches (regex url : string) : bool :=
  deploy.contains "/keys/query" url.

Definition token_matches (value : string) (values : list string) : bool :=
  existsb (String.eqb value) values.

Definition keysQuery (tok : string) : Request :=
  {| url := "/_matrix/client/v3/keys/query"; header_values := [tok] |}.

(** For contrast, the handling the spec rules out, "a read-then-write": a
    handler first reads the budget, and later decides on what it read and
    writes the budget back. *)
Inductive RacyOp := ReadBudget (handler : nat) | DecideAndWrite (handler : nat).

Record RacyState := {
  budget : nat;
  seen : gmap nat nat;          (* what each handler has read *)
  injected : nat
}.

Definition racy_step (s : RacyState) (op : RacyOp) : RacyState :=
  match op with
  | ReadBudget h =>
    {| budget := budget s; seen := <[h := budget s]> (seen s); injected := injected s |}
  | DecideAndWrite h =>
    match seen s !! h with
    | Some (S k) => {| budget := k; seen := seen s; injected := S (injected s) |}
    | _ => s
    end
  end.

Section Rule.
Context (url_matches : string → string → bool).
Context (header_matches : string → list string → bool).

(** Modelled from the spec: one predicate of the absent proxy's filter,
    decided by the regular-expression matchers, which are parameters. *)
Definition holds (r : Request) (p : Predicate) : bool :=
  match p with
  | U regex => url_matches regex (url r)
  | HQ value => header_matches value (header_values r)
  end.

(** Modelled from the spec: the proxy's filter evaluation, which is not
    part of these sources.  "Predicates combine with logical AND when
    concatenated." *)
Definition matches (f : list Predicate) (r : Request) : bool := forallb (holds r) f.

(** Modelled from the spec: the proxy's handling of one request under a
    status-code rule, which is not part of these sources.  "A Rule's match
    budget, if present, strictly decrements per matching request and the
    rule stops applying at zero"; "after the budget is exhausted the rule
    stops intercepting and subsequent matching requests pass through
    unmodified"; the decrement is "an atomic compare-and-decrement": the
    test of the budget and its update are this one step. *)
Definition intercept (rule : StatusCodeRule) (budget : option nat) (r : Request)
  : Verdict * option nat :=
  if matches (filter rule) r
  then match budget with
       | None => (Injected (return_status rule) (block_request rule), None)
       | Some (S k) => (Injected (return_status rule) (block_request rule), Some k)
       | Some O => (PassThrough, Some O)
       end
  else (PassThrough, budget).

(** Modelled from the spec: the absent proxy serving requests, one atomic
    [intercept] per request, in the order it takes them up. *)
Fixpoint serve (rule : StatusCodeRule) (budget : option nat) (reqs : list Request)
  : list Verdict * option nat :=
  match reqs with
  | [] => ([], budget)
  | r :: reqs' =>
    let '(v, budget') := intercept rule budget r in
    let '(vs, budget'') := serve rule budget' reqs' in
    (v :: vs, budget'')
  end.

(** Modelled from the spec: a rule push to the absent proxy installs the
    rule with its full budget ("a new push replaces the prior rule set"). *)
Definition push (rule : StatusCodeRule) (reqs : list Request) : list Verdict * option nat :=
  serve rule (count rule) reqs.

Fixpoint count_matching (rule : StatusCodeRule) (reqs : list Request) : nat :=
  match reqs with
  | [] => 0
  | r :: reqs' => (if matches (filter rule) r then 1 else 0) + count_matching rule reqs'
  end.

Fixpoint count_injected (vs : list Verdict) : nat :=
  match vs with
  | [] => 0
  | v :: vs' => (if is_injected v then 1 else 0) + count_injected vs'
  end.

(** The orders in which the proxy can take up the requests of two
    clients. *)
Inductive interleave : list Request → list Request → list Request → Prop :=
| interleave_nil : interleave [] [] []
| interleave_left r l1 l2 l : interleave l1 l2 l → interleave (r :: l1) l2 (r :: l)
| interleave_right r l1 l2 l : interleave l1 l2 l → interleave l1 (r :: l2) (r :: l).

Lemma serve_length rule reqs : ∀ budget, length (serve rule budget reqs).1 = length reqs.
Proof.
  induction reqs as [|r reqs IH]; intros budget; simpl; [done|].
  destruct (intercept rule budget r) as [v b'].
  specialize (IH b'). destruct (serve rule b' reqs) as [vs b'']. simpl in *. by rewrite IH.
Qed.

(** The verdict on each request: injected exactly when it matches and
    fewer than [n] matching requests came before it. *)
Lemma serve_verdict rule reqs : ∀ n i r,
  reqs !! i = Some r →
  (serve rule (Some n) reqs).1 !! i
  = Some (if matches (filter rule) r && (count_matching rule (take i reqs) <? n)
          then Injected (return_status rule) (block_request rule)
          else PassThrough).
Proof.
  induction reqs as [|a reqs IH]; intros n i r Hi; [done|].
  simpl. unfold intercept.
  destruct i as [|i]; simpl in Hi.
  - injection Hi as ->. destruct (matches (filter rule) r); simpl.
    + destruct n as [|k]; simpl.
      * by destruct (serve rule (Some 0) reqs).
      * by destruct (serve rule (Some k) reqs).
    + by destruct (serve rule (Some n) reqs).
  - destruct (matches (filter rule) a) eqn:Ha; simpl.
    + destruct n as [|k].
      * specialize (IH 0 i r Hi). destruct (serve rule (Some 0) reqs) as [vs b]. simpl in *.
        rewrite IH. by rewrite !andb_false_r.
      * specialize (IH k i r Hi). destruct (serve rule (Some k) reqs) as [vs b]. simpl in *.
        rewrite IH, Ha. done.
    + specialize (IH n i r Hi). destruct (serve rule (Some n) reqs) as [vs b]. simpl in *.
      rewrite IH, Ha. done.
Qed.

(** The number of injections, and the budget left. *)
Lemma serve_count rule reqs : ∀ n,
  count_injected (serve rule (Some n) reqs).1 = min n (count_matching rule reqs)
  ∧ (serve rule (Some n) reqs).2 = Some (n - count_matching rule reqs).
Proof.
  induction reqs as [|a reqs IH]; intros n; simpl.
  - split; [lia|]. f_equal. lia.
  - unfold intercept. destruct (matches (filter rule) a); simpl.
    + destruct n as [|k].
      * destruct (IH 0) as [H1 H2]. destruct (serve rule (Some 0) reqs) as [vs b].
        simpl in *. rewrite H1, H2. done.
      * destruct (IH k) as [H1 H2]. destruct (serve rule (Some k) reqs) as [vs b].
        simpl in *. rewrite H1, H2. done.
    + destruct (IH n) as [H1 H2]. destruct (serve rule (Some n) reqs) as [vs b].
      simpl in *. rewrite H1, H2. done.
Qed.

Lemma count_matching_interleave rule l1 l2 l :
  interleave l1 l2 l →
  count_matching rule l = count_matching rule l1 + count_matching rule l2.
Proof. induction 1; simpl; lia. Qed.

(** C2: under a rule with match budget [N], whatever requests arrive and
    in whatever order: the matching requests that find fewer than [N]
    matching requests before them receive the injected action, the others
    pass through, so exactly [N] requests are injected once [N] have
    matched and the [N+1]-th matching request passes through unmodified;
    each injection takes one unit off the budget, at zero the rule no
    longer applies, and however the requests of two clients interleave, no
    more than [N] are injected. *)
Theorem budget_allows_exactly_N (rule : StatusCodeRule) (N : nat) (reqs : list Request) :
  count rule = Some N →
  count_injected (push rule reqs).1 = min N (count_matching rule reqs)
  ∧ (push rule reqs).2 = Some (N - count_matching rule reqs)
  ∧ (∀ i r, reqs !! i = Some r →
       (push rule reqs).1 !! i
       = Some (if matches (filter rule) r && (count_matching rule (take i reqs) <? N)
               then Injected (return_status rule) (block_request rule)
               else PassThrough))
  ∧ (∀ i r, reqs !! i = Some r → count_matching rule (take i reqs) = N →
       (push rule reqs).1 !! i = Some PassThrough)
  ∧ (∀ k r, matches (filter rule) r = true →
       intercept rule (Some (S k)) r
       = (Injected (return_status rule) (block_request rule), Some k))
  ∧ (∀ r, intercept rule (Some 0) r = (PassThrough, Some 0))
  ∧ (∀ l1 l2 l, interleave l1 l2 l →
       count_injected (push rule l).1
       = min N (count_matching rule l1 + count_matching rule l2)
       ∧ count_injected (push rule l).1 ≤ N).
Proof.
  intros Hc. unfold push. rewrite Hc.
  destruct (serve_count rule reqs N) as [Hinj Hleft].
  split; [done|]. split; [done|]. split; [by apply serve_verdict|]. split.
  { intros i r Hi Hn. rewrite (serve_verdict rule reqs N i r Hi), Hn.
    by rewrite Nat.ltb_irrefl, andb_false_r. }
  split. { intros k r Hm. unfold intercept. by rewrite Hm. }
  split. { intros r. unfold intercept. by destruct (matches (filter rule) r). }
  intros l1 l2 l Hl. destruct (serve_count rule l N) as [Hinj' _].
  rewrite Hinj', (count_matching_interleave rule l1 l2 l Hl). lia.
Qed.

End Rule.

Lemma budget_allows_exactly_N_witness :
  count (keysQueryRule "syt_bob") = Some 3
  ∧ (push fragment_matches token_matches (keysQueryRule "syt_bob")
       (replicate 4 (keysQuery "syt_bob"))).1
    = [Injected 504 true; Injected 504 true; Injected 504 true; PassThrough]
  ∧ count_injected
      (push fragment_matches token_matches (keysQueryRule "syt_bob")
         (replicate 4 (keysQuery "syt_bob"))).1 = 3.
Proof.
  split; [reflexivity|]. split; [vm_compute; reflexivity|].
  destruct (budget_allows_exactly_N fragment_matches token_matches
              (keysQueryRule "syt_bob") 3 (replicate 4 (keysQuery "syt_bob")) eq_refl)
    as (Hinj & _).
  rewrite Hinj. vm_compute; reflexivity.
Defined.

(** Two handlers racing for the last unit both inject. *)
Lemma read_then_write_overspends :
  injected (foldl racy_step {| budget := 1; seen := ∅; injected := 0 |}
              [ReadBudget 0; ReadBudget 1; DecideAndWrite 0; DecideAndWrite 1]) = 2.
Proof. vm_compute. reflexivity. Qed.

End proxy.

(** ** The synchronization waiter *)
Module waiter.

Local Open Scope nat_scope.

(** Modelled from the spec: the Waiter of Complement's [helpers] package
    ([helpers.NewWaiter]), which is not part of these sources.  "A binary
    completion flag". *)
Record Waiter := { finished : bool }.

(** Modelled from the spec: [NewWaiter] of the absent Waiter, the flag
    unset. *)
Definition NewWaiter : Waiter := {| finished := false |}.

(** Modelled from the spec: [Finish] of the absent Waiter.  "[Finish()]
    marks completion, safe to call multiple times or from multiple
    producers (idempotent, first call wins)"; "subsequent calls are
    no-ops". *)
Definition Finish (w : Waiter) : Waiter :=
  if finished w then w else {| finished := true |}.

(** Modelled from the spec: what [Wait] of the absent Waiter tells its
    caller: completion, or the failure message reported to the test. *)
Inductive WaitResult :=
| Completed
| TimedOut (failureMessage : string).

(** Modelled from the spec: [Wait] of the absent Waiter.  "[Wait(timeout,
    failureMessage)] blocks the calling task until [Finish] has been called
    or the timeout elapses, and on timeout reports the supplied failure
    message".  Time is counted in ticks; [producers i] is the number of
    [Finish] calls the producers make at tick [i]; [now] is the tick at
    which [Wait] looks at the flag, [timeout] the ticks it may still wait. *)
Fixpoint Wait (w : Waiter) (producers : nat → nat) (now timeout : nat)
    (failureMessage : string) : WaitResult * Waiter :=
  let w' := Nat.iter (producers now) Finish w in
  if finished w' then (Completed, w')
  else match timeout with
       | O => (TimedOut failureMessage, w')
       | S timeout' => Wait w' producers (S now) timeout' failureMessage
       end.

(** [Finish] was called at some tick of the list. *)
Definition finish_called (producers : nat → nat) (ticks : list nat) : bool :=
  existsb (λ i, 0 <? producers i) ticks.

Lemma Finish_finished w : finished (Finish w) = true.
Proof. unfold Finish. by destruct (finished w) eqn:E. Qed.

Lemma Finish_idempotent w : Finish (Finish w) = Finish w.
Proof. unfold Finish at 1. by rewrite Finish_finished. Qed.

Lemma Finish_iter n w : Nat.iter (S n) Finish w = Finish w.
Proof.
  induction n as [|n IH]; [done|].
  change (Nat.iter (S (S n)) Finish w) with (Finish (Nat.iter (S n) Finish w)).
  by rewrite IH, Finish_idempotent.
Qed.

Lemma finished_iter n w : finished (Nat.iter n Finish w) = finished w || (0 <? n).
Proof.
  destruct n as [|n].
  - simpl. by rewrite orb_false_r.
  - rewrite Finish_iter, Finish_finished. by rewrite orb_true_r.
Qed.

Lemma Wait_result producers msg timeout : ∀ w now,
  (Wait w producers now timeout msg).1
  = if finished w || finish_called producers (seq now (S timeout))
    then Completed else TimedOut msg.
Proof.
  induction timeout as [|timeout IH]; intros w now.
  - simpl. rewrite finished_iter, orb_false_r.
    by destruct (finished w || (0 <? producers now)).
  - cbn [Wait]. rewrite finished_iter.
    change (seq now (S (S timeout))) with (now :: seq (S now) (S timeout)).
    cbn [finish_called existsb].
    destruct (finished w || (0 <? producers now)) eqn:E.
    + rewrite orb_assoc, E. done.
    + rewrite IH, finished_iter, E. rewrite orb_assoc, E. done.
Qed.

(** C7: [Finish] is idempotent: a second call, or any number of further
    calls, leaves the waiter as the first call left it, finished.  [Wait]
    always comes back to its caller: with the failure message when the
    flag is unset and no [Finish] is called up to the timeout; with success
    when the flag was set already or some [Finish] is called within the
    timeout, however many calls there are. *)
Theorem Waiter_Finish_idempotent_Wait_bounded (w : Waiter) (producers : nat → nat)
    (now timeout : nat) (failureMessage : string) :
  Finish (Finish w) = Finish w
  ∧ (∀ n, Nat.iter (S n) Finish w = Finish w)
  ∧ finished (Finish w) = true
  ∧ (Wait w producers now timeout failureMessage).1
    = (if finished w || finish_called producers (seq now (S timeout))
       then Completed else TimedOut failureMessage)
  ∧ (∀ n, (Wait (Nat.iter (S n) Finish w) producers now timeout failureMessage).1
          = Completed)
  ∧ (Wait NewWaiter (λ _, 0) now timeout failureMessage).1 = TimedOut failureMessage.
Proof.
  split; [apply Finish_idempotent|]. split; [intros n; apply Finish_iter|].
  split; [apply Finish_finished|]. split; [apply Wait_result|]. split.
  - intros n. by rewrite Wait_result, Finish_iter, Finish_finished.
  - rewrite Wait_result. simpl finished. rewrite orb_false_l.
    assert (H : ∀ l, finish_called (λ _, 0) l = false) by (induction l; auto).
    by rewrite H.
Qed.

End waiter.

(** ** Package [deploy]: the rest of the file *)
Module deploy_more.
Import deploy.

(** [SlidingSyncURL] *)
Definition SlidingSyncURL (d : SlidingSyncDeployment) : M string :=
  match slidingSync d with
  | None => t_Fatalf "SlidingSyncURL: not set"
  | Some _ =>
    if String.eqb (slidingSyncURL d) "" then t_Fatalf "SlidingSyncURL: not set"
    else ret (slidingSyncURL d)
  end.

(** A computation keeps to a plan [L] under a reading [f] of its events: it
    never exits the process; when it returns it has done exactly [L]; when
    the test is failed it has done a first part of [L]. *)
Definition follows {A B} (f : Event → option B) (m : M A) (L : list B) : Prop :=
  match outcome m with
  | Done _ => omap f (trace m) = L
  | Goexit => omap f (trace m) `prefix_of` L
  | OsExit _ => False
  end.

(** The processes a trace starts. *)
Definition processes_started (tr : list Event) : list (string * list string) :=
  omap (λ e, match e with EvCmdStart path args => Some (path, args) | _ => None end) tr.

Section Follows.
Context {B : Type} (f : Event → option B).

Lemma follows_bind {A C} (m : M A) (k : A → M C) L1 L2 L :
  follows f m L1 → (∀ a, follows f (k a) L2) → L = L1 ++ L2 →
  follows f (bind m k) L.
Proof.
  unfold follows, outcome, trace. intros Hm Hk ->.
  destruct m as [tr [a| |]]; simpl in *; [|done|].
  - specialize (Hk a). destruct (k a) as [tr' [c| |]]; simpl in *; [| done |].
    + by rewrite omap_app, Hm, Hk.
    + rewrite omap_app, Hm. by apply prefix_app.
  - by apply prefix_app_r.
Qed.

Lemma follows_ret {A} (a : A) : follows f (ret a) [].
Proof. done. Qed.

Lemma follows_emit e : follows f (emit e) (option_list (f e)).
Proof. unfold follows. simpl. by destruct (f e). Qed.

Lemma follows_emit_as e L : option_list (f e) = L → follows f (emit e) L.
Proof. intros <-. apply follows_emit. Qed.

Lemma follows_fatal {A} msg : f (EvTFatalf msg) = None → follows f (@t_Fatalf A msg) [].
Proof. intros H. unfold follows. simpl. by rewrite H. Qed.

Lemma follows_Goexit {A} L : follows f (([], Goexit) : M A) L.
Proof. unfold follows. simpl. apply prefix_nil. Qed.

Lemma follows_must_NotError {A} msg (r : A + string) :
  (∀ m, f (EvTFatalf m) = None) → follows f (must_NotError msg r) [].
Proof. intros H. destruct r; simpl; [done|]. by apply follows_fatal. Qed.

Lemma omap_println_quiet lines tr :
  (∀ l, f (EvPrintln l) = None) → omap f (map EvPrintln lines ++ tr) = omap f tr.
Proof. intros Hl. induction lines; simpl; [done|]. by rewrite Hl. Qed.

Lemma follows_waitUntilReady w image s fuel :
  (∀ i k, f (EvProbe i k) = None) → (∀ l, f (EvPrintln l) = None) →
  ∀ k, follows f (waitUntilReady w image s k fuel) [].
Proof.
  intros Hp Hl. induction fuel as [|fuel IH]; intros k; [done|].
  specialize (IH (S k)). unfold follows, outcome, trace in *. simpl.
  destruct (probe s (observe w image k)) as [lines ok].
  destruct ok; simpl.
  - by rewrite Hp, omap_println_quiet.
  - destruct (waitUntilReady w image s (S k) fuel) as [tr [b| |]]; simpl in *;
      rewrite ?Hp, ?omap_println_quiet; done.
Qed.

Lemma follows_GenericContainer w req :
  (∀ i k, f (EvProbe i k) = None) → (∀ l, f (EvPrintln l) = None) →
  follows f (GenericContainer w req)
    (option_list (f (EvCreateContainer (Image req) (NetworkAliases req)))).
Proof.
  intros Hp Hl. unfold GenericContainer.
  eapply follows_bind; [apply follows_emit| |by rewrite app_nil_r].
  intros _. destruct (create_err w (Image req)); [done|].
  eapply follows_bind with (L1 := []) (L2 := []); [by apply follows_waitUntilReady| |done].
  by intros [].
Qed.

Lemma follows_GenericContainer_as w req L :
  (∀ i k, f (EvProbe i k) = None) → (∀ l, f (EvPrintln l) = None) →
  option_list (f (EvCreateContainer (Image req) (NetworkAliases req))) = L →
  follows f (GenericContainer w req) L.
Proof. intros Hp Hl <-. by apply follows_GenericContainer. Qed.

Lemma follows_externalURL w c p :
  (∀ c, f (EvContainerHost c) = None) → (∀ c p, f (EvMappedPort c p) = None) →
  (∀ m, f (EvTFatalf m) = None) →
  follows f (externalURL w c p) [].
Proof.
  intros Hh Hm Hf. unfold externalURL.
  eapply follows_bind; [apply follows_emit| |by rewrite Hh].
  intros _. eapply follows_bind with (L1 := []) (L2 := []);
    [by apply follows_must_NotError| |done].
  intros host. eapply follows_bind; [apply follows_emit| |by rewrite Hm].
  intros _. eapply follows_bind with (L1 := []) (L2 := []);
    [by apply follows_must_NotError| |done].
  by intros port.
Qed.

End Follows.

(** One step of a plan proof: split a [bind], or close a leaf. *)
Ltac follows_leaf :=
  first [ apply follows_emit_as; vm_compute; reflexivity
        | apply follows_ret
        | apply follows_GenericContainer_as; [done|done|vm_compute; reflexivity]
        | apply follows_externalURL; done
        | apply follows_must_NotError; done
        | apply follows_fatal; done
        | apply follows_Goexit ].

Ltac follows_go :=
  lazymatch goal with
  | |- follows _ (bind _ _) _ =>
    eapply follows_bind; [follows_go | intros ?; follows_go | reflexivity]
  | |- follows _ (match ?x with _ => _ end) _ =>
    destruct x; follows_go
  | |- follows _ (let _ := _ in _) _ => cbv zeta; follows_go
  | |- _ => follows_leaf
  end.

Lemma RunNewDeployment_stops_nothing w tcp :
  follows (λ e, match e with
                | EvTerminate _ | EvControllerTerminate => Some e
                | _ => None
                end) (RunNewDeployment w tcp) [].
Proof. unfold RunNewDeployment, t_Logf. destruct tcp; follows_go. Qed.

Lemma RunNewDeployment_no_tcpdump w :
  follows (λ e, match e with EvCmdStart path args => Some (path, args) | _ => None end)
    (RunNewDeployment w false) [].
Proof. unfold RunNewDeployment, t_Logf. follows_go. Qed.

Lemma follows_nil {A B} (f : Event → option B) (m : M A) :
  follows f m [] → omap f (trace m) = [] ∧ ∀ c, outcome m ≠ OsExit c.
Proof.
  unfold follows. destruct (outcome m); [done|done|].
  intros H%prefix_nil_inv. done.
Qed.

(** X1: [RunNewDeployment] never exits the process, and what it has
    provisioned is always a first part of: network, reverse proxy,
    datastore, sync-aggregation proxy, in this order; all four when it
    returns a deployment.  When a container does not start, the test is
    failed there and the containers after it are never created. *)
Theorem RunNewDeployment_keeps_to_plan (w : World) (tcp : bool) :
  match outcome (RunNewDeployment w tcp) with
  | Done _ =>
    provisioning_order (trace (RunNewDeployment w tcp))
    = [NetworkR; ReverseProxyR; DatastoreR; SyncProxyR]
  | Goexit =>
    provisioning_order (trace (RunNewDeployment w tcp))
    `prefix_of` [NetworkR; ReverseProxyR; DatastoreR; SyncProxyR]
  | OsExit _ => False
  end.
Proof.
  change (follows provisioned (RunNewDeployment w tcp)
            [NetworkR; ReverseProxyR; DatastoreR; SyncProxyR]).
  unfold RunNewDeployment, t_Logf. destruct tcp; follows_go.
Qed.

(** X2: [RunNewDeployment] never terminates a container or its
    controller, however it ends: when it fails the test after starting
    containers, they are left running.  Without [shouldTCPDump] it starts
    no process. *)
Theorem RunNewDeployment_stops_nothing_it_started (w : World) (tcp : bool) :
  stop_events (trace (RunNewDeployment w tcp)) = []
  ∧ terminated (trace (RunNewDeployment w tcp)) = []
  ∧ processes_started (trace (RunNewDeployment w false)) = [].
Proof.
  destruct (follows_nil _ _ (RunNewDeployment_stops_nothing w tcp)) as [Hs _].
  destruct (follows_nil _ _ (RunNewDeployment_no_tcpdump w)) as [Hp _].
  split; [exact Hs|]. split; [|exact Hp].
  unfold terminated. revert Hs. generalize (trace (RunNewDeployment w tcp)).
  induction l as [|e l IH]; simpl; [done|].
  destruct e; simpl; try done; auto.
Qed.

Lemma outcome_bind {A C} (m : M A) (k : A → M C) :
  outcome (bind m k)
  = match outcome m with
    | Done a => outcome (k a)
    | OsExit c => OsExit c
    | Goexit => Goexit
    end.
Proof. destruct m as [tr [a| |]]; simpl; [|done..]. by destruct (k a). Qed.

(** The wait loop reports ready when some probe before the deadline
    succeeds. *)
Lemma waitUntilReady_complete w image s fuel : ∀ k,
  (∃ j, (k ≤ j < k + fuel)%nat ∧ (probe s (observe w image j)).2 = true) →
  outcome (waitUntilReady w image s k fuel) = Done true.
Proof.
  induction fuel as [|fuel IH]; intros k (j & Hj & Hp); [lia|].
  unfold outcome in *. simpl.
  destruct (probe s (observe w image k)) as [lines ok] eqn:Hk.
  destruct ok; simpl; [done|].
  assert (Hne : j ≠ k) by (intros ->; rewrite Hk in Hp; done).
  specialize (IH (S k)). destruct (waitUntilReady w image s (S k) fuel) as [tr o].
  simpl in *. rewrite IH; [done|]. exists j. split; [lia|done].
Qed.

Lemma GenericContainer_ready w req :
  create_err w (Image req) = None → ready_within w req →
  outcome (GenericContainer w req)
  = Done (inl {| c_image := Image req; c_ports := ExposedPorts req |}).
Proof.
  intros Hc (j & Hj & Hp). unfold GenericContainer.
  rewrite outcome_bind. cbn [outcome emit snd]. rewrite Hc, outcome_bind.
  rewrite waitUntilReady_complete; [done|]. exists j. split; [lia|done].
Qed.

Lemma externalURL_ok w c p host port :
  host_of w c = inl host → mapped_port w c p = inl port →
  outcome (externalURL w c p) = Done ("http://" +:+ host +:+ ":" +:+ port).
Proof. intros Hh Hp. unfold externalURL, outcome. simpl. by rewrite Hh, Hp. Qed.

(** X3: in a world where Complement deploys, the controller listens, the
    three containers can be created and show their readiness signal before
    the deadline, hosts and mapped ports are known and tcpdump starts,
    [RunNewDeployment] returns, and the deployment it returns holds the
    three containers, the sliding sync URL [http://host:port] and, when
    asked, the tcpdump command filtering on the three ports. *)
Theorem RunNewDeployment_returns_when_healthy (w : World) (tcp : bool)
    (dep : ComplementDeployment) (port : Z) (host : string)
    (ports : Container → string → string) (pid : Z) :
  complement_deploy w = Some dep →
  controller_listen w = inl port →
  (∀ image, create_err w image = None) →
  ready_log w "listening" rpC →
  ready_exit_zero w pgC →
  ready_log w "listening on" ssC →
  (∀ c, host_of w c = inl host) →
  (∀ c p, mapped_port w c p = inl (ports c p)) →
  (∀ args, cmd_start w "tcpdump" args = inl pid) →
  outcome (RunNewDeployment w tcp)
  = Done {| Deployment := dep;
            Controller := NewReverseProxyController;
            postgres := Some pgC;
            slidingSync := Some ssC;
            reverseProxy := Some rpC;
            slidingSyncURL := "http://" +:+ host +:+ ":" +:+ ports ssC "6789/tcp";
            tcpdump :=
              if tcp
              then Some {| cmd_path := "tcpdump";
                           cmd_args :=
                             tcpdumpArgs
                               ("tcp port "
                                +:+ url_port w ("http://" +:+ host +:+ ":"
                                                +:+ ports ssC "6789/tcp")
                                +:+ " or port " +:+ url_port w (BaseURL dep "hs1")
                                +:+ " or port " +:+ url_port w (BaseURL dep "hs2"));
                           cmd_pid := pid |}
              else None |}.
Proof.
  intros Hdep Hlisten Hcreate Hrp Hpg Hss Hhost Hports Hstart.
  unfold RunNewDeployment.
  rewrite outcome_bind. cbn [outcome emit snd].
  rewrite outcome_bind, Hdep. cbn [outcome ret snd].
  rewrite outcome_bind. cbn [outcome emit snd].
  rewrite outcome_bind, Hlisten. cbn [outcome ret snd].
  rewrite outcome_bind, GenericContainer_ready; [|done|].
  2:{ destruct Hrp as (j & ? & ?). by exists j. }
  rewrite outcome_bind. cbn [must_NotError outcome ret snd].
  rewrite outcome_bind, (externalURL_ok _ _ _ host _ (Hhost _) (Hports _ _)).
  rewrite outcome_bind, (externalURL_ok _ _ _ host _ (Hhost _) (Hports _ _)).
  rewrite outcome_bind, GenericContainer_ready; [|done|].
  2:{ destruct Hpg as (j & ? & Hz). exists j. split; [done|]. simpl. by apply Z.eqb_eq. }
  rewrite outcome_bind. cbn [must_NotError outcome ret snd].
  rewrite outcome_bind, GenericContainer_ready; [|done|].
  2:{ destruct Hss as (j & ? & ?). by exists j. }
  rewrite outcome_bind. cbn [must_NotError outcome ret snd].
  rewrite outcome_bind, (externalURL_ok _ _ _ host _ (Hhost _) (Hports _ _)).
  do 7 (rewrite outcome_bind; cbn [outcome t_Logf emit snd]).
  rewrite outcome_bind. destruct tcp.
  - do 3 (rewrite outcome_bind; cbn [outcome t_Logf emit snd]).
    rewrite Hstart. rewrite outcome_bind. cbn [outcome t_Logf emit snd ret].
    reflexivity.
  - reflexivity.
Qed.

Lemma externalURL_inv w c p tr url :
  externalURL w c p = (tr, Done url) →
  ∃ host port, host_of w c = inl host ∧ mapped_port w c p = inl port
               ∧ url = "http://" +:+ host +:+ ":" +:+ port.
Proof.
  unfold externalURL. simpl.
  destruct (host_of w c) as [host|]; [|discriminate]. simpl.
  destruct (mapped_port w c p) as [port|]; [|discriminate]. simpl.
  intros [= _ <-]. by exists host, port.
Qed.

Lemma RunNewDeployment_url w tcp tr d :
  RunNewDeployment w tcp = (tr, Done d) →
  ∃ host port, host_of w ssC = inl host ∧ mapped_port w ssC "6789/tcp" = inl port
               ∧ slidingSyncURL d = "http://" +:+ host +:+ ":" +:+ port.
Proof.
  unfold RunNewDeployment. intros H.
  bind_emit H.
  bind_step H. destruct (complement_deploy w) as [dep|]; [|discriminate].
  injection Hm as <- <-.
  bind_emit H.
  bind_step H. destruct (controller_listen w) as [port|]; [|discriminate].
  injection Hm as <- <-.
  bind_step H. apply GenericContainer_inv in Hm as (_ & res & [= <-] & Hres).
  bind_step H. apply must_NotError_inv in Hm as [-> ->]. destruct Hres as [-> _].
  bind_step H. clear Hm. bind_step H. clear Hm.
  bind_step H. apply GenericContainer_inv in Hm as (_ & res & [= <-] & Hres).
  bind_step H. apply must_NotError_inv in Hm as [-> ->]. destruct Hres as [-> _].
  bind_step H. apply GenericContainer_inv in Hm as (_ & res & [= <-] & Hres).
  bind_step H. apply must_NotError_inv in Hm as [-> ->]. destruct Hres as [-> _].
  bind_step H. apply externalURL_inv in Hm as (host & p & Hh & Hp & ->).
  do 7 bind_emit H.
  bind_step H. injection H as _ <-. simpl. by exists host, p.
Qed.

(** X4: on every deployment [RunNewDeployment] returns, [SlidingSyncURL]
    returns, without failing the test and without any effect, the URL
    [http://host:port] made of the host and the mapped port 6789 of the
    sliding sync container. *)
Theorem SlidingSyncURL_of_new_deployment (w : World) (tcp : bool) (tr : list Event)
    (d : SlidingSyncDeployment) :
  RunNewDeployment w tcp = (tr, Done d) →
  ∃ host port,
    host_of w ssC = inl host ∧ mapped_port w ssC "6789/tcp" = inl port
    ∧ SlidingSyncURL d = ([], Done ("http://" +:+ host +:+ ":" +:+ port)).
Proof.
  intros H. destruct (RunNewDeployment_url w tcp tr d H) as (host & port & Hh & Hp & Hu).
  apply RunNewDeployment_inv in H as (_ & _ & _ & _ & _ & Hss & _).
  exists host, port. split; [done|]. split; [done|].
  unfold SlidingSyncURL. by rewrite Hss, Hu.
Qed.

Lemma RunNewDeployment_returns_when_healthy_witness :
  outcome (RunNewDeployment goodWorld true) = Done goodDeployment.
Proof.
  rewrite (RunNewDeployment_returns_when_healthy goodWorld true
             (Deployment goodDeployment) 40123 "localhost"
             (λ _ p, if String.eqb p "6789/tcp" then "32780"
                     else if String.eqb p "3000/tcp" then "32781" else "32782")
             4242); try done.
  - exists 2%nat. split; [simpl; lia|vm_compute; reflexivity].
  - exists 1%nat. split; [simpl; lia|vm_compute; reflexivity].
  - exists 2%nat. split; [simpl; lia|vm_compute; reflexivity].
Defined.

Lemma SlidingSyncURL_of_new_deployment_witness :
  RunNewDeployment goodWorld true
    = (trace (RunNewDeployment goodWorld true), Done goodDeployment)
  ∧ SlidingSyncURL goodDeployment = ([], Done "http://localhost:32780").
Proof.
  assert (H : RunNewDeployment goodWorld true
              = (trace (RunNewDeployment goodWorld true), Done goodDeployment))
    by (vm_compute; reflexivity).
  split; [exact H|].
  destruct (SlidingSyncURL_of_new_deployment goodWorld true _ goodDeployment H)
    as (host & port & Hh & Hp & ->).
  injection Hh as <-. injection Hp as <-. reflexivity.
Defined.

End deploy_more.

(** ** [main_test.go]: the lock, retries and the cleanup of [TestMain] *)
Module tests_more.
Import tests.

Local Open Scope nat_scope.

(** A language binding, by name. *)
Definition Binding := string.

(** What [TestMain] does around the tests. *)
Inductive MainEvent :=
| EvPreTestRun (b : Binding)
| EvTeardown (d : Ptr)
| EvPostTestRun (b : Binding).

(** [ssDeployment.Teardown()] returns: it does not end the process. *)
Definition returns (o : deploy.Outcome unit) : bool :=
  match o with
  | deploy.Done _ => true
  | _ => false
  end.

(** The cleanup [TestMain] hands to [complement.TestMainWithCleanup]: take
    the lock, tear the deployment down if there is one, release the lock,
    then [PostTestRun] of every binding.  [Teardown d] is how
    [ssDeployment.Teardown()] ends on the deployment [d]: the [Teardown] of
    package [deploy] ends the process by [log.Fatalf] when a container
    will not stop, and then neither [Unlock] nor any [PostTestRun] is
    reached.  [None]: [Lock] blocks. *)
Definition cleanup (Teardown : Ptr → deploy.Outcome unit) (bindings : list Binding)
    (s : State) : option (list MainEvent * deploy.Outcome unit) :=
  match ssMutex s with
  | Some _ => None
  | None =>
    Some (match ssDeployment s with
          | Some d =>
            match Teardown d with
            | deploy.Done _ => (EvTeardown d :: map EvPostTestRun bindings, deploy.Done tt)
            | o => ([EvTeardown d], o)
            end
          | None => (map EvPostTestRun bindings, deploy.Done tt)
          end)
  end.

(** [TestMain]: [PreTestRun] of every binding, the tests (goroutines
    calling [Deploy] under a schedule), then the cleanup. *)
Definition TestMain (env : Env) (Teardown : Ptr → deploy.Outcome unit)
    (bindings : list Binding) (n : nat) (sched : list nat)
  : option (list MainEvent * deploy.Outcome unit) :=
  match cleanup Teardown bindings (run env (init n) sched) with
  | Some (evs, o) => Some (map EvPreTestRun bindings ++ evs, o)
  | None => None
  end.

(** The deployments a run of [TestMain] tears down. *)
Definition teardowns (evs : list MainEvent) : list Ptr :=
  omap (λ e, match e with EvTeardown d => Some d | _ => None end) evs.

(** The bindings whose [PostTestRun] a run of [TestMain] calls. *)
Definition post_runs (evs : list MainEvent) : list Binding :=
  omap (λ e, match e with EvPostTestRun b => Some b | _ => None end) evs.

(** How [Teardown] of package [deploy] ends on the deployment it built,
    in a world where the sliding sync container will not stop. *)
Definition stuckTeardown (d : Ptr) : deploy.Outcome unit :=
  deploy.outcome (deploy.Teardown deploy.stuckWorld deploy.goodDeployment false).

(** The calls of [RunNewDeployment] a failing first call makes. *)
Definition first_attempts (env : Env) : nat :=
  match os_Getwd env 0 with
  | inl _ => 1
  | inr _ => 0
  end.

(** The second call can build. *)
Definition second_ok (env : Env) : bool :=
  match os_Getwd env 1 with
  | inl _ => RunNewDeployment_ok env (first_attempts env)
  | inr _ => false
  end.

(** The first provisioning fails, the second works. *)
Definition flakyEnv : Env :=
  {| os_Getwd := λ _, inl "/src/complement-crypto/tests";
     RunNewDeployment_ok := λ n, negb (Nat.eqb n 0) |}.

Lemma teardowns_pre l evs : teardowns (map EvPreTestRun l ++ evs) = teardowns evs.
Proof. induction l; simpl; auto. Qed.

Lemma teardowns_post l : teardowns (map EvPostTestRun l) = [].
Proof. induction l; simpl; auto. Qed.

Lemma post_runs_pre l evs : post_runs (map EvPreTestRun l ++ evs) = post_runs evs.
Proof. induction l; simpl; auto. Qed.

Lemma post_runs_post l : post_runs (map EvPostTestRun l) = l.
Proof. induction l; simpl; [done|]. by f_equal. Qed.

(** X5: once every test has left [Deploy], the cleanup of [TestMain] does
    not block on the lock.  [TestMain] runs [PreTestRun] of every binding,
    then at most one [Teardown], of the deployment every successful
    [Deploy] call returned (none when there is no deployment), and ends as
    that [Teardown] ends.  [PostTestRun] of every binding runs after it
    exactly when there is nothing to tear down or [Teardown] returns; when
    [Teardown] ends the process, no [PostTestRun] runs. *)
Theorem TestMain_tears_down_what_Deploy_returned (env : Env)
    (Teardown : Ptr → deploy.Outcome unit) (bindings : list Binding)
    (n : nat) (sched : list nat) :
  (∀ t th, threads (run env (init n) sched) !! t = Some th → pc th = Idle) →
  ∃ evs o,
    TestMain env Teardown bindings n sched = Some (evs, o)
    ∧ o = match ssDeployment (run env (init n) sched) with
          | Some d => Teardown d
          | None => deploy.Done tt
          end
    ∧ evs = map EvPreTestRun bindings
            ++ match ssDeployment (run env (init n) sched) with
               | Some d => [EvTeardown d]
               | None => []
               end
            ++ (if returns o then map EvPostTestRun bindings else [])
    ∧ post_runs evs = (if returns o then bindings else [])
    ∧ length (teardowns evs) ≤ 1
    ∧ (∀ t q, Returned q ∈ results_of (run env (init n) sched) t → teardowns evs = [q]).
Proof.
  intros Hidle. set (s := run env (init n) sched) in *.
  assert (HI : Inv s) by apply Inv_run, Inv_init.
  assert (HH : HolderInside s)
    by (apply HolderInside_run; [apply Inv_init|apply HolderInside_init]).
  assert (Hfree : ssMutex s = None).
  { destruct (ssMutex s) as [h|] eqn:Hm; [|done].
    destruct (HH h Hm) as (th & Hth & Hc). rewrite (Hidle h th Hth) in Hc. done. }
  assert (Hres : ∀ t q, Returned q ∈ results_of s t → ssDeployment s = Some q).
  { intros t q. unfold results_of. destruct (threads s !! t) as [th|] eqn:Hth.
    - intros Hin. by apply (inv_results s HI t th q Hth Hin).
    - intros Hin. by apply elem_of_nil in Hin. }
  unfold TestMain, cleanup. fold s. rewrite Hfree.
  destruct (ssDeployment s) as [d|] eqn:Hd.
  - destruct (Teardown d) as [[]|c|] eqn:Ht; eexists _, _;
      (split; [reflexivity|]); (split; [reflexivity|]); (split; [reflexivity|]);
      rewrite ?post_runs_pre, ?teardowns_pre; cbn [returns post_runs teardowns omap list_omap];
      fold (post_runs (map EvPostTestRun bindings));
      fold (teardowns (map EvPostTestRun bindings));
      rewrite ?post_runs_post, ?teardowns_post;
      (split; [reflexivity|]); (split; [simpl; lia|]);
      intros t q Hin; apply Hres in Hin; by simplify_eq.
  - eexists _, _. split; [reflexivity|]. split; [reflexivity|]. split; [reflexivity|].
    rewrite post_runs_pre, teardowns_pre. cbn [returns app].
    rewrite post_runs_post, teardowns_post.
    split; [reflexivity|]. split; [simpl; lia|].
    intros t q Hin. apply Hres in Hin. discriminate.
Qed.

Lemma TestMain_tears_down_what_Deploy_returned_witness :
  (∀ t th, threads (run goodEnv (init 2) [0; 0; 0; 0; 0; 0; 0; 1; 1; 1; 1]) !! t = Some th →
           pc th = Idle)
  ∧ TestMain goodEnv (λ _, deploy.Done tt) ["rust"; "js"] 2 [0; 0; 0; 0; 0; 0; 0; 1; 1; 1; 1]
    = Some ([EvPreTestRun "rust"; EvPreTestRun "js"; EvTeardown 0;
             EvPostTestRun "rust"; EvPostTestRun "js"], deploy.Done tt)
  ∧ TestMain goodEnv stuckTeardown ["rust"; "js"] 2 [0; 0; 0; 0; 0; 0; 0; 1; 1; 1; 1]
    = Some ([EvPreTestRun "rust"; EvPreTestRun "js"; EvTeardown 0], deploy.OsExit 1%Z).
Proof.
  assert (H : ∀ t th,
             threads (run goodEnv (init 2) [0; 0; 0; 0; 0; 0; 0; 1; 1; 1; 1]) !! t = Some th →
             pc th = Idle).
  { intros t th H. vm_compute in H.
    destruct t as [|[|t]]; simpl in H; [by injection H as <-..|discriminate]. }
  split; [exact H|]. split.
  - destruct (TestMain_tears_down_what_Deploy_returned goodEnv (λ _, deploy.Done tt)
                ["rust"; "js"] 2 [0; 0; 0; 0; 0; 0; 0; 1; 1; 1; 1] H)
      as (evs & o & -> & -> & -> & _).
    vm_compute. reflexivity.
  - destruct (TestMain_tears_down_what_Deploy_returned goodEnv stuckTeardown
                ["rust"; "js"] 2 [0; 0; 0; 0; 0; 0; 0; 1; 1; 1; 1] H)
      as (evs & o & -> & -> & -> & _).
    vm_compute. reflexivity.
Defined.

(** X6: whenever a caller of [Deploy] holds the lock, whatever the others
    have done so far, that caller alone finishes its call in five steps at
    most, whether [os.Getwd] or the provisioning fails or not: the lock is
    free again, the caller is outside [Deploy] and has one more result. *)
Theorem Deploy_releases_the_lock (env : Env) (n : nat) (sched : list nat) (t : nat) :
  ssMutex (run env (init n) sched) = Some t →
  let s := run env (init n) sched in
  let s' := finish env s t 5 in
  ssMutex s' = None
  ∧ (∃ th', threads s' !! t = Some th' ∧ pc th' = Idle)
  ∧ length (results_of s' t) = S (length (results_of s t)).
Proof.
  intros Hm s s'. subst s'. fold s in Hm.
  assert (HI : Inv s) by apply Inv_run, Inv_init.
  assert (HH : HolderInside s) by (apply HolderInside_run; [apply Inv_init|apply HolderInside_init]).
  destruct (HH t Hm) as (th & Hth & Hc).
  pose proof (lookup_lt_Some _ _ _ Hth) as Hlt.
  unfold results_of at 2. rewrite Hth.
  clearbody s. clear HI HH.
  destruct s as [d m l g r b]. cbn [threads ssMutex] in *. subst m.
  destruct (finish_holder env d l g r b t th Hth Hc) as (res & d' & g' & r' & b' & ->).
  unfold results_of. cbn [ssMutex threads]. rewrite list_lookup_insert_eq by done.
  split; [done|]. split; [by eexists|]. cbn [results]. rewrite length_app. simpl. lia.
Qed.

Lemma Deploy_releases_the_lock_witness :
  ssMutex (run goodEnv (init 2) [0; 0; 1]) = Some 0
  ∧ ssMutex (finish goodEnv (run goodEnv (init 2) [0; 0; 1]) 0 5) = None
  ∧ length (results_of (finish goodEnv (run goodEnv (init 2) [0; 0; 1]) 0 5) 0) = 1.
Proof.
  assert (H : ssMutex (run goodEnv (init 2) [0; 0; 1]) = Some 0) by (vm_compute; reflexivity).
  split; [exact H|].
  destruct (Deploy_releases_the_lock goodEnv 2 [0; 0; 1] 0 H) as (Hm & _ & Hl).
  split; [exact Hm|]. rewrite Hl. vm_compute; reflexivity.
Defined.

(** X7: a failed [Deploy] is not remembered: when the first call cannot
    provision, it leaves no deployment and releases the lock, and the next
    call asks [os.Getwd] and [RunNewDeployment] once more instead of
    returning the failure again; the deployment is set exactly when this
    second attempt works. *)
Theorem Deploy_retries_after_failure (env : Env) (n t t' : nat) :
  t < n → t' < n → first_ok env = false →
  let s1 := Deploy env (init n) t in
  let s2 := Deploy env s1 t' in
  ssDeployment s1 = None ∧ ssMutex s1 = None ∧ results_of s1 t = [Failed]
  ∧ run_calls s1 = first_attempts env
  ∧ ssMutex s2 = None
  ∧ ssDeployment s2 = (if second_ok env then Some (first_attempts env) else None)
  ∧ run_calls s2 = (match os_Getwd env 1 with
                    | inl _ => S (first_attempts env)
                    | inr _ => first_attempts env
                    end).
Proof.
  intros Hlt Hlt' Hfail s1 s2. subst s2 s1.
  assert (Hth : threads (init n) !! t = Some {| pc := Idle; results := [] |})
    by (by apply lookup_replicate_2).
  pose proof (lookup_lt_Some _ _ _ Hth) as Hlen.
  rewrite (Deploy_idle env (init n) t _ Hth eq_refl eq_refl).
  unfold first_ok in Hfail. unfold after_Deploy, second_ok, first_attempts, results_of.
  cbn [init ssDeployment getwd_calls run_calls threads built ssMutex].
  assert (Hidle : ∀ res, ∃ th', <[t := {| pc := Idle; results := [] ++ [res] |}]>
                                  (replicate n {| pc := Idle; results := [] |}) !! t'
                                = Some th' ∧ pc th' = Idle).
  { intros res. destruct (decide (t' = t)) as [->|Hne].
    - eexists. split; [apply list_lookup_insert_eq; by rewrite length_replicate|done].
    - exists {| pc := Idle; results := [] |}. split; [|reflexivity].
      rewrite list_lookup_insert_ne by done. by apply lookup_replicate_2. }
  destruct (os_Getwd env 0) as [dir|err].
  - rewrite Hfail. cbn [threads ssDeployment ssMutex run_calls].
    rewrite list_lookup_insert_eq by (by rewrite length_replicate).
    do 4 (split; [done|]).
    destruct (Hidle Failed) as (th' & Hth' & Hpc').
    repeat (erewrite (Deploy_idle env _ t' th'); [|exact Hth'|exact Hpc'|reflexivity]).
    unfold after_Deploy.
    cbn [ssDeployment getwd_calls run_calls].
    destruct (os_Getwd env 1); [destruct (RunNewDeployment_ok env 1)|]; done.
  - cbn [threads ssDeployment ssMutex run_calls].
    rewrite list_lookup_insert_eq by (by rewrite length_replicate).
    do 4 (split; [done|]).
    destruct (Hidle Failed) as (th' & Hth' & Hpc').
    repeat (erewrite (Deploy_idle env _ t' th'); [|exact Hth'|exact Hpc'|reflexivity]).
    unfold after_Deploy.
    cbn [ssDeployment getwd_calls run_calls].
    destruct (os_Getwd env 1); [destruct (RunNewDeployment_ok env 0)|]; done.
Qed.

Lemma Deploy_retries_after_failure_witness :
  (0 < 2 ∧ 1 < 2 ∧ first_ok flakyEnv = false)
  ∧ ssDeployment (Deploy flakyEnv (init 2) 0) = None
  ∧ ssDeployment (Deploy flakyEnv (Deploy flakyEnv (init 2) 0) 1) = Some 1.
Proof.
  split; [repeat split; lia|].
  destruct (Deploy_retries_after_failure flakyEnv 2 0 1) as (H1 & _ & _ & _ & _ & H2 & _);
    [lia|lia|reflexivity|].
  split; [exact H1|exact H2].
Defined.

End tests_more.

(** ** [main_test.go]: test contexts and syncing clients *)
Module harness.

(** [api.ClientType] *)
Record ClientType := { Lang : string; HS : string }.

(** [client.CSAPI], the fields the file reads. *)
Record CSAPI := {
  UserID : string;
  BaseURL : string;
  DeviceID : string;
  Password : string
}.

(** [api.ClientCreationOpts], the fields the file reads and writes. *)
Record ClientCreationOpts := {
  o_BaseURL : string;
  o_UserID : string;
  o_DeviceID : string;
  o_Password : string;
  o_SlidingSyncURL : string;
  o_PersistentStorage : bool
}.

(** An [api.Client], as a language binding hands it out. *)
Record Client := { c_id : nat; Opts : ClientCreationOpts }.

(** A [*deploy.SlidingSyncDeployment]. *)
Definition Ptr := nat.

Inductive Event :=
| EvDeploy
| EvRegister (d : Ptr) (hs localpart password : string)
| EvCreateClient (lang : string) (cfg : ClientCreationOpts)
| EvLogin (c : Client) (opts : ClientCreationOpts)
| EvStartSyncing (c : Client)
| EvStopSyncing (c : Client)
| EvClose (c : Client)
| EvTFatalf (msg : string)
| EvDo (what : string).              (* what a callback does *)

(** How a call ends: it returns, the test is failed ([t.Fatalf] ends the
    goroutine), or it panics. *)
Inductive Outcome (A : Type) : Type :=
| Done (a : A)
| Goexit
| Panic (msg : string).
Arguments Done {A} a.
Arguments Goexit {A}.
Arguments Panic {A} msg.

Definition M (A : Type) : Type := (list Event * Outcome A)%type.

Definition ret {A} (a : A) : M A := ([], Done a).

Definition bind {A B} (m : M A) (k : A → M B) : M B :=
  match m with
  | (tr, Done a) => let '(tr', o) := k a in (tr ++ tr', o)
  | (tr, Goexit) => (tr, Goexit)
  | (tr, Panic msg) => (tr, Panic msg)
  end.

Notation "'do' x <~ m ; k" := (bind m (λ x, k))
  (at level 10, x name, m at level 100, k at level 200).
Notation "m ;;; k" := (bind m (λ _, k))
  (at level 100, k at level 200, right associativity).

Definition emit (e : Event) : M unit := ([e], Done tt).
Definition trace {A} (m : M A) : list Event := m.1.
Definition outcome {A} (m : M A) : Outcome A := m.2.

(** A call into code outside the file: its event, then however it ends. *)
Definition call {A} (e : Event) (o : Outcome A) : M A := ([e], o).

Definition t_Fatalf {A} (msg : string) : M A := ([EvTFatalf msg], Goexit).

(** How a function ends whose deferred call ended with [o'] after its body
    ended with [o]: a deferred call that fails the test or panics decides. *)
Definition after {A} (o' : Outcome unit) (o : Outcome A) : Outcome A :=
  match o' with
  | Done _ => o
  | Goexit => Goexit
  | Panic msg => Panic msg
  end.

(** [defer cleanup(); body]: the deferred call runs when the body returns,
    when it fails the test and when it panics. *)
Definition with_defer {A} (cleanup : M unit) (body : M A) : M A :=
  let '(tr, o) := body in
  let '(tr', o') := cleanup in
  (tr ++ tr', after o' o).

(** [must.NotError(t, msg, err)] *)
Definition must_NotError (msg : string) (err : option string) : M unit :=
  match err with
  | None => ret tt
  | Some e => t_Fatalf (msg +:+ ": " +:+ e)
  end.

(** Everything outside the file.  A pointer that may be nil is an
    [option]. *)
Record World := {
  (* Deploy(t) *)
  deploy : Outcome Ptr;
  (* deployment.Register(t, hs, helpers.RegistrationOpts{..}) *)
  register : Ptr → string → string → string → Outcome CSAPI;
  (* api.NewClientCreationOpts(cli) *)
  NewClientCreationOpts : option CSAPI → Outcome ClientCreationOpts;
  (* deployment.SlidingSyncURLForHS(t, hs) *)
  SlidingSyncURLForHS : Ptr → string → Outcome string;
  (* langs.GetLanguageBindings(lang), and its MustCreateClient(t, cfg) *)
  GetLanguageBindings : string → option (ClientCreationOpts → Outcome Client);
  (* client.Login(t, opts) *)
  login : Client → ClientCreationOpts → Outcome (option string);
  (* client.MustStartSyncing(t) *)
  syncing : Client → Outcome unit;
  (* the stopSyncing it returned *)
  stop : Client → Outcome unit;
  (* client.Close(t) *)
  close : Client → Outcome unit;
  (* must.NotEqual(t, p, nil, msg) on a nil pointer p fails the test *)
  NotEqual_nil_fails : bool
}.

(** [TestContext] *)
Record TestContext := {
  Deployment : Ptr;
  Alice : option CSAPI;
  AliceClientType : ClientType;
  Bob : option CSAPI;
  BobClientType : ClientType;
  Charlie : option CSAPI;
  CharlieClientType : ClientType
}.

(** The zero value of [api.ClientType]. *)
Definition noClientType : ClientType := {| Lang := ""; HS := "" |}.

Section WithWorld.
Context (w : World).

(** [Deploy(t)] *)
Definition Deploy : M Ptr := call EvDeploy (deploy w).

(** [deployment.Register(t, hs, helpers.RegistrationOpts{..})] *)
Definition Register (d : Ptr) (hs localpart password : string) : M CSAPI :=
  call (EvRegister d hs localpart password) (register w d hs localpart password).

(** [CreateTestContext] *)
Definition CreateTestContext (clientType : list ClientType) : M TestContext :=
  do deployment <~ Deploy;
  let tc := {| Deployment := deployment;
               Alice := None; AliceClientType := noClientType;
               Bob := None; BobClientType := noClientType;
               Charlie := None; CharlieClientType := noClientType |} in
  (* pre-register alice and bob, if told *)
  do tc <~ match clientType !! 0%nat with
           | Some ct =>
             do cli <~ Register deployment (HS ct) "alice" "complement-crypto-password";
             ret {| Deployment := Deployment tc;
                    Alice := Some cli; AliceClientType := ct;
                    Bob := Bob tc; BobClientType := BobClientType tc;
                    Charlie := Charlie tc; CharlieClientType := CharlieClientType tc |}
           | None => ret tc
           end;
  do tc <~ match clientType !! 1%nat with
           | Some ct =>
             do cli <~ Register deployment (HS ct) "bob" "complement-crypto-password";
             ret {| Deployment := Deployment tc;
                    Alice := Alice tc; AliceClientType := AliceClientType tc;
                    Bob := Some cli; BobClientType := ct;
                    Charlie := Charlie tc; CharlieClientType := CharlieClientType tc |}
           | None => ret tc
           end;
  do tc <~ match clientType !! 2%nat with
           | Some ct =>
             do cli <~ Register deployment (HS ct) "charlie" "complement-crypto-password";
             ret {| Deployment := Deployment tc;
                    Alice := Alice tc; AliceClientType := AliceClientType tc;
                    Bob := Bob tc; BobClientType := BobClientType tc;
                    Charlie := Some cli; CharlieClientType := ct |}
           | None => ret tc
           end;
  if (3 <? length clientType)%nat
  then t_Fatalf ("CreateTestContext: too many clients: got "
                 +:+ pretty (length clientType))
  else ret tc.

(** The package-level [MustCreateClient], as the file calls it: without
    options. *)
Definition MustCreateClient (clientType : ClientType) (cfg : ClientCreationOpts) : M Client :=
  match GetLanguageBindings w (Lang clientType) with
  | None => t_Fatalf ("unknown language: " +:+ Lang clientType)
  | Some bindings_MustCreateClient =>
    call (EvCreateClient (Lang clientType) cfg) (bindings_MustCreateClient cfg)
  end.

(** [for _, opt := range options { opt(&cfg) }] *)
Definition applyOpts (options : list (ClientCreationOpts → ClientCreationOpts))
    (cfg : ClientCreationOpts) : ClientCreationOpts :=
  foldl (λ cfg opt, opt cfg) cfg options.

(** [WithPersistentStorage()] *)
Definition WithPersistentStorage (o : ClientCreationOpts) : ClientCreationOpts :=
  {| o_BaseURL := o_BaseURL o; o_UserID := o_UserID o; o_DeviceID := o_DeviceID o;
     o_Password := o_Password o; o_SlidingSyncURL := o_SlidingSyncURL o;
     o_PersistentStorage := true |}.

(** [(c *TestContext) MustCreateClient] *)
Definition TestContext_MustCreateClient (c : TestContext) (cli : option CSAPI)
    (clientType : ClientType)
    (options : list (ClientCreationOpts → ClientCreationOpts)) : M Client :=
  do cfg <~ ([], NewClientCreationOpts w cli);
  let cfg := applyOpts options cfg in
  do url <~ ([], SlidingSyncURLForHS w (Deployment c) (HS clientType));
  let cfg := {| o_BaseURL := o_BaseURL cfg; o_UserID := o_UserID cfg;
                o_DeviceID := o_DeviceID cfg; o_Password := o_Password cfg;
                o_SlidingSyncURL := url;
                o_PersistentStorage := o_PersistentStorage cfg |} in
  MustCreateClient clientType cfg.

(** [client.Login(t, opts)] *)
Definition Login (c : Client) (opts : ClientCreationOpts) : M (option string) :=
  call (EvLogin c opts) (login w c opts).

(** [(c *TestContext) MustLoginClient] *)
Definition MustLoginClient (c : TestContext) (cli : option CSAPI) (clientType : ClientType)
    (options : list (ClientCreationOpts → ClientCreationOpts)) : M Client :=
  do client <~ TestContext_MustCreateClient c cli clientType options;
  do err <~ Login client (Opts client);
  must_NotError "failed to login client" err ;;;
  ret client.

(** [client.Close(t)] *)
Definition Close (c : Client) : M unit := call (EvClose c) (close w c).

(** The [stopSyncing] that [MustStartSyncing] returns. *)
Definition stopSyncing (c : Client) : M unit := call (EvStopSyncing c) (stop w c).

(** [client.MustStartSyncing(t)] *)
Definition MustStartSyncing (c : Client) : M (M unit) :=
  call (EvStartSyncing c) (syncing w c) ;;; ret (stopSyncing c).

(** [(c *TestContext) WithClientSyncing] *)
Definition WithClientSyncing (c : TestContext) (clientType : ClientType)
    (cli : option CSAPI) (callback : Client → M unit) : M unit :=
  do clientUnderTest <~ MustLoginClient c cli clientType [];
  with_defer (Close clientUnderTest)
    (do stopSyncing <~ MustStartSyncing clientUnderTest;
     with_defer stopSyncing (callback clientUnderTest)).

(** [must.NotEqual(t, p, nil, msg)] on a user of the context: it passes on
    a pointer that is not nil. *)
Definition must_NotEqual_nil (p : option CSAPI) (msg : string) : M unit :=
  match p with
  | Some _ => ret tt
  | None => if NotEqual_nil_fails w then t_Fatalf msg else ret tt
  end.

(** [WithAliceSyncing] *)
Definition WithAliceSyncing (c : TestContext) (callback : Client → M unit) : M unit :=
  must_NotEqual_nil (Alice c)
    "No Alice defined. Call CreateTestContext() with at least 1 api.ClientType." ;;;
  WithClientSyncing c (AliceClientType c) (Alice c) callback.

(** [WithAliceAndBobSyncing]: Bob first, Alice inside. *)
Definition WithAliceAndBobSyncing (c : TestContext) (callback : Client → Client → M unit)
  : M unit :=
  must_NotEqual_nil (Bob c)
    "No Bob defined. Call CreateTestContext() with at least 2 api.ClientTypes." ;;;
  WithClientSyncing c (BobClientType c) (Bob c) (λ bob,
    WithClientSyncing c (AliceClientType c) (Alice c) (λ alice,
      callback alice bob)).

(** [WithAliceBobAndCharlieSyncing]: Charlie first, then Bob, then Alice. *)
Definition WithAliceBobAndCharlieSyncing (c : TestContext)
    (callback : Client → Client → Client → M unit) : M unit :=
  must_NotEqual_nil (Charlie c)
    "No Charlie defined. Call CreateTestContext() with at least 3 api.ClientTypes." ;;;
  WithClientSyncing c (CharlieClientType c) (Charlie c) (λ charlie,
    WithClientSyncing c (BobClientType c) (Bob c) (λ bob,
      WithClientSyncing c (AliceClientType c) (Alice c) (λ alice,
        callback alice bob charlie))).

End WithWorld.

(** The users a trace registers: server and localpart suffix. *)
Definition registrations (tr : list Event) : list (string * string) :=
  omap (λ e, match e with EvRegister _ hs localpart _ => Some (hs, localpart) | _ => None end) tr.

(** A world where everything outside the file works: users get their
    localpart as an id, a client gets the length of its user id as [c_id]. *)
Definition goodWorld : World :=
  {| deploy := Done 7%nat;
     register := λ _ hs localpart password,
       Done {| UserID := "@" +:+ localpart +:+ ":" +:+ hs;
               BaseURL := "http://" +:+ hs; DeviceID := "DEV"; Password := password |};
     NewClientCreationOpts := λ cli,
       match cli with
       | Some c => Done {| o_BaseURL := BaseURL c; o_UserID := UserID c;
                           o_DeviceID := DeviceID c; o_Password := Password c;
                           o_SlidingSyncURL := ""; o_PersistentStorage := false |}
       | None => Panic "invalid memory address or nil pointer dereference"
       end;
     SlidingSyncURLForHS := λ _ _, Done "http://localhost:32780";
     GetLanguageBindings := λ lang,
       if String.eqb lang "rust" || String.eqb lang "js"
       then Some (λ cfg, Done {| c_id := String.length (o_UserID cfg); Opts := cfg |})
       else None;
     login := λ _ _, Done None;
     syncing := λ _, Done tt;
     stop := λ _, Done tt;
     close := λ _, Done tt;
     NotEqual_nil_fails := true |}.

Definition rust_hs1 : ClientType := {| Lang := "rust"; HS := "hs1" |}.
Definition js_hs2 : ClientType := {| Lang := "js"; HS := "hs2" |}.

(** The users [goodWorld] registers. *)
Definition userOf (localpart hs : string) : CSAPI :=
  {| UserID := "@" +:+ localpart +:+ ":" +:+ hs; BaseURL := "http://" +:+ hs;
     DeviceID := "DEV"; Password := "complement-crypto-password" |}.

(** The context [CreateTestContext goodWorld [rust_hs1; js_hs2]] returns. *)
Definition aliceAndBob : TestContext :=
  {| Deployment := 7%nat;
     Alice := Some (userOf "alice" "hs1"); AliceClientType := rust_hs1;
     Bob := Some (userOf "bob" "hs2"); BobClientType := js_hs2;
     Charlie := None; CharlieClientType := noClientType |}.

(** The context [CreateTestContext goodWorld [rust_hs1; js_hs2; rust_hs1]]
    returns. *)
Definition aliceBobAndCharlie : TestContext :=
  {| Deployment := 7%nat;
     Alice := Alice aliceAndBob; AliceClientType := rust_hs1;
     Bob := Bob aliceAndBob; BobClientType := js_hs2;
     Charlie := Some (userOf "charlie" "hs1"); CharlieClientType := rust_hs1 |}.

(** The client [goodWorld] makes for a user. *)
Definition clientOf (cli : option CSAPI) : Client :=
  {| c_id := String.length (from_option UserID "" cli);
     Opts := {| o_BaseURL := from_option BaseURL "" cli;
                o_UserID := from_option UserID "" cli;
                o_DeviceID := from_option DeviceID "" cli;
                o_Password := from_option Password "" cli;
                o_SlidingSyncURL := "http://localhost:32780";
                o_PersistentStorage := false |} |}.

(** An option that sets another sliding sync URL. *)
Definition withOtherProxy (o : ClientCreationOpts) : ClientCreationOpts :=
  {| o_BaseURL := o_BaseURL o; o_UserID := o_UserID o; o_DeviceID := o_DeviceID o;
     o_Password := o_Password o; o_SlidingSyncURL := "http://elsewhere:1234";
     o_PersistentStorage := o_PersistentStorage o |}.

Lemma bind_Done {A B} (tr : list Event) (a : A) (k : A → M B) :
  bind (tr, Done a) k = (tr ++ (k a).1, (k a).2).
Proof. simpl. by destruct (k a). Qed.

(** What [WithClientSyncing] does once the client is logged in and syncs. *)
Lemma WithClientSyncing_syncing (w : World) (c : TestContext) (clientType : ClientType)
    (cli : option CSAPI) (callback : Client → M unit) (tr0 : list Event) (u : Client) :
  MustLoginClient w c cli clientType [] = (tr0, Done u) →
  syncing w u = Done tt →
  WithClientSyncing w c clientType cli callback
  = (tr0 ++ [EvStartSyncing u] ++ trace (callback u) ++ [EvStopSyncing u; EvClose u],
     after (close w u) (after (stop w u) (outcome (callback u)))).
Proof.
  intros Hl Hs. unfold WithClientSyncing. rewrite Hl, bind_Done.
  unfold with_defer, MustStartSyncing, stopSyncing, Close, call. simpl. rewrite Hs. simpl.
  destruct (callback u) as [tr o]. simpl. by rewrite <- app_assoc.
Qed.

(** X8: once [WithClientSyncing] has logged the client in, it always closes
    it, last of all, however starting to sync or the callback ends (return,
    failed test, panic); when syncing started, it stops syncing right after
    the callback and before closing; when it did not start, the callback
    never runs.  A cleanup that fails decides how the call ends, otherwise
    the callback does. *)
Theorem WithClientSyncing_cleans_up (w : World) (c : TestContext) (clientType : ClientType)
    (cli : option CSAPI) (callback : Client → M unit) (tr0 : list Event) (u : Client) :
  MustLoginClient w c cli clientType [] = (tr0, Done u) →
  WithClientSyncing w c clientType cli callback
  = match syncing w u with
    | Done _ =>
      (tr0 ++ [EvStartSyncing u] ++ trace (callback u) ++ [EvStopSyncing u; EvClose u],
       after (close w u) (after (stop w u) (outcome (callback u))))
    | Goexit => (tr0 ++ [EvStartSyncing u; EvClose u], after (close w u) Goexit)
    | Panic msg => (tr0 ++ [EvStartSyncing u; EvClose u], after (close w u) (Panic msg))
    end.
Proof.
  intros Hl. destruct (syncing w u) as [[]| |msg] eqn:Hs.
  - by apply WithClientSyncing_syncing.
  - unfold WithClientSyncing. rewrite Hl, bind_Done.
    unfold with_defer, MustStartSyncing, Close, call. simpl. by rewrite Hs.
  - unfold WithClientSyncing. rewrite Hl, bind_Done.
    unfold with_defer, MustStartSyncing, Close, call. simpl. by rewrite Hs.
Qed.

Lemma WithClientSyncing_cleans_up_witness :
  MustLoginClient goodWorld aliceAndBob (Alice aliceAndBob) rust_hs1 []
  = (trace (MustLoginClient goodWorld aliceAndBob (Alice aliceAndBob) rust_hs1 []),
     Done {| c_id := 10%nat;
             Opts := {| o_BaseURL := "http://hs1"; o_UserID := "@alice:hs1";
                        o_DeviceID := "DEV"; o_Password := "complement-crypto-password";
                        o_SlidingSyncURL := "http://localhost:32780";
                        o_PersistentStorage := false |} |})
  ∧ outcome (WithClientSyncing goodWorld aliceAndBob rust_hs1 (Alice aliceAndBob)
               (λ _, ([EvDo "send"], Panic "boom")))
    = Panic "boom"
  ∧ last (trace (WithClientSyncing goodWorld aliceAndBob rust_hs1 (Alice aliceAndBob)
                   (λ _, ([EvDo "send"], Panic "boom"))))
    = Some (EvClose {| c_id := 10%nat;
             Opts := {| o_BaseURL := "http://hs1"; o_UserID := "@alice:hs1";
                        o_DeviceID := "DEV"; o_Password := "complement-crypto-password";
                        o_SlidingSyncURL := "http://localhost:32780";
                        o_PersistentStorage := false |} |}).
Proof.
  assert (H : MustLoginClient goodWorld aliceAndBob (Alice aliceAndBob) rust_hs1 []
    = (trace (MustLoginClient goodWorld aliceAndBob (Alice aliceAndBob) rust_hs1 []),
       Done {| c_id := 10%nat;
             Opts := {| o_BaseURL := "http://hs1"; o_UserID := "@alice:hs1";
                        o_DeviceID := "DEV"; o_Password := "complement-crypto-password";
                        o_SlidingSyncURL := "http://localhost:32780";
                        o_PersistentStorage := false |} |}))
    by (vm_compute; reflexivity).
  split; [exact H|].
  rewrite (WithClientSyncing_cleans_up goodWorld aliceAndBob rust_hs1 (Alice aliceAndBob)
             (λ _, ([EvDo "send"], Panic "boom")) _ _ H).
  split; vm_compute; reflexivity.
Defined.

(** X9: [WithAliceAndBobSyncing], when both users are defined and both
    clients log in and start syncing: Bob is logged in and syncing before
    Alice's client is even created, the callback runs once with both, and
    the cleanup is in the reverse order: Alice stops and is closed, then
    Bob, whether the callback returns or not. *)
Theorem WithAliceAndBobSyncing_order (w : World) (c : TestContext) (alice bob : CSAPI)
    (trA trB : list Event) (a b : Client) (callback : Client → Client → M unit) :
  Alice c = Some alice → Bob c = Some bob →
  MustLoginClient w c (Some alice) (AliceClientType c) [] = (trA, Done a) →
  MustLoginClient w c (Some bob) (BobClientType c) [] = (trB, Done b) →
  syncing w a = Done tt → syncing w b = Done tt →
  trace (WithAliceAndBobSyncing w c callback)
  = trB ++ [EvStartSyncing b] ++ trA ++ [EvStartSyncing a]
    ++ trace (callback a b)
    ++ [EvStopSyncing a; EvClose a; EvStopSyncing b; EvClose b].
Proof.
  intros HA HB HlA HlB HsA HsB. unfold WithAliceAndBobSyncing.
  rewrite HB. simpl must_NotEqual_nil. unfold ret. rewrite bind_Done. simpl.
  rewrite (WithClientSyncing_syncing w c (BobClientType c) (Some bob) _ trB b HlB HsB).
  rewrite HA.
  rewrite (WithClientSyncing_syncing w c (AliceClientType c) (Some alice) _ trA a HlA HsA).
  unfold trace. simpl.
  rewrite <- !app_assoc. simpl. by rewrite <- !app_assoc.
Qed.

(** X10: [WithAliceBobAndCharlieSyncing], when the three users are defined
    and the three clients log in and start syncing: Charlie is logged in
    and syncing first, then Bob, then Alice; the callback runs once with
    the three; the cleanup goes Alice, Bob, Charlie, each stopped and then
    closed, whether the callback returns or not. *)
Theorem WithAliceBobAndCharlieSyncing_order (w : World) (c : TestContext)
    (alice bob charlie : CSAPI) (trA trB trC : list Event) (a b ch : Client)
    (callback : Client → Client → Client → M unit) :
  Alice c = Some alice → Bob c = Some bob → Charlie c = Some charlie →
  MustLoginClient w c (Some alice) (AliceClientType c) [] = (trA, Done a) →
  MustLoginClient w c (Some bob) (BobClientType c) [] = (trB, Done b) →
  MustLoginClient w c (Some charlie) (CharlieClientType c) [] = (trC, Done ch) →
  syncing w a = Done tt → syncing w b = Done tt → syncing w ch = Done tt →
  trace (WithAliceBobAndCharlieSyncing w c callback)
  = trC ++ [EvStartSyncing ch] ++ trB ++ [EvStartSyncing b] ++ trA ++ [EvStartSyncing a]
    ++ trace (callback a b ch)
    ++ [EvStopSyncing a; EvClose a; EvStopSyncing b; EvClose b;
        EvStopSyncing ch; EvClose ch].
Proof.
  intros HA HB HC HlA HlB HlC HsA HsB HsC. unfold WithAliceBobAndCharlieSyncing.
  rewrite HC. simpl must_NotEqual_nil. unfold ret. rewrite bind_Done. simpl.
  rewrite (WithClientSyncing_syncing w c (CharlieClientType c) (Some charlie) _ trC ch HlC HsC).
  rewrite HB.
  rewrite (WithClientSyncing_syncing w c (BobClientType c) (Some bob) _ trB b HlB HsB).
  rewrite HA.
  rewrite (WithClientSyncing_syncing w c (AliceClientType c) (Some alice) _ trA a HlA HsA).
  unfold trace. simpl.
  rewrite <- !app_assoc. simpl. rewrite <- !app_assoc. simpl. by rewrite <- !app_assoc.
Qed.

Lemma WithAliceAndBobSyncing_order_witness :
  trace (WithAliceAndBobSyncing goodWorld aliceAndBob (λ _ _, ([EvDo "chat"], Goexit)))
  = trace (MustLoginClient goodWorld aliceAndBob (Bob aliceAndBob) js_hs2 [])
    ++ [EvStartSyncing (clientOf (Bob aliceAndBob))]
    ++ trace (MustLoginClient goodWorld aliceAndBob (Alice aliceAndBob) rust_hs1 [])
    ++ [EvStartSyncing (clientOf (Alice aliceAndBob))]
    ++ [EvDo "chat"]
    ++ [EvStopSyncing (clientOf (Alice aliceAndBob)); EvClose (clientOf (Alice aliceAndBob));
        EvStopSyncing (clientOf (Bob aliceAndBob)); EvClose (clientOf (Bob aliceAndBob))].
Proof.
  apply (WithAliceAndBobSyncing_order goodWorld aliceAndBob
           (userOf "alice" "hs1") (userOf "bob" "hs2") _ _
           (clientOf (Alice aliceAndBob)) (clientOf (Bob aliceAndBob))
           (λ _ _, ([EvDo "chat"], Goexit)));
    vm_compute; reflexivity.
Defined.

Lemma WithAliceBobAndCharlieSyncing_order_witness :
  trace (WithAliceBobAndCharlieSyncing goodWorld aliceBobAndCharlie
           (λ _ _ _, ([EvDo "chat"], Done tt)))
  = trace (MustLoginClient goodWorld aliceBobAndCharlie (Charlie aliceBobAndCharlie)
             rust_hs1 [])
    ++ [EvStartSyncing (clientOf (Charlie aliceBobAndCharlie))]
    ++ trace (MustLoginClient goodWorld aliceBobAndCharlie (Bob aliceAndBob) js_hs2 [])
    ++ [EvStartSyncing (clientOf (Bob aliceAndBob))]
    ++ trace (MustLoginClient goodWorld aliceBobAndCharlie (Alice aliceAndBob) rust_hs1 [])
    ++ [EvStartSyncing (clientOf (Alice aliceAndBob))]
    ++ [EvDo "chat"]
    ++ [EvStopSyncing (clientOf (Alice aliceAndBob)); EvClose (clientOf (Alice aliceAndBob));
        EvStopSyncing (clientOf (Bob aliceAndBob)); EvClose (clientOf (Bob aliceAndBob));
        EvStopSyncing (clientOf (Charlie aliceBobAndCharlie));
        EvClose (clientOf (Charlie aliceBobAndCharlie))].
Proof.
  apply (WithAliceBobAndCharlieSyncing_order goodWorld aliceBobAndCharlie
           (userOf "alice" "hs1") (userOf "bob" "hs2") (userOf "charlie" "hs1") _ _ _
           (clientOf (Alice aliceAndBob)) (clientOf (Bob aliceAndBob))
           (clientOf (Charlie aliceBobAndCharlie))
           (λ _ _ _, ([EvDo "chat"], Done tt)));
    vm_compute; reflexivity.
Defined.

(** X11: a context [CreateTestContext] returns was given three client types
    at most; it registered one user per client type, in the order alice,
    bob, charlie, each on the homeserver of its client type and on the
    deployment of the context; Alice, Bob and Charlie are defined exactly
    when there is a first, a second and a third client type, and their
    client types are those. *)
Theorem CreateTestContext_users (w : World) (clientType : list ClientType)
    (tr : list Event) (tc : TestContext) :
  CreateTestContext w clientType = (tr, Done tc) →
  (length clientType ≤ 3)%nat
  ∧ deploy w = Done (Deployment tc)
  ∧ tr = EvDeploy
         :: zip_with (λ ct localpart,
                        EvRegister (Deployment tc) (HS ct) localpart
                          "complement-crypto-password")
              clientType ["alice"; "bob"; "charlie"]
  ∧ (is_Some (Alice tc) ↔ (1 ≤ length clientType)%nat)
  ∧ (is_Some (Bob tc) ↔ (2 ≤ length clientType)%nat)
  ∧ (is_Some (Charlie tc) ↔ (3 ≤ length clientType)%nat)
  ∧ AliceClientType tc = default noClientType (clientType !! 0%nat)
  ∧ BobClientType tc = default noClientType (clientType !! 1%nat)
  ∧ CharlieClientType tc = default noClientType (clientType !! 2%nat).
Proof.
  unfold CreateTestContext, Deploy, Register, call. simpl.
  destruct (deploy w) as [d| |]; [|discriminate..]. simpl.
  destruct clientType as [|a [|b [|c [|d' rest]]]]; simpl.
  - intros [= <- <-]. simpl. repeat split; try lia; try (by intros [? [=]]).
  - destruct (register w d (HS a) "alice" _); [|discriminate..]. simpl.
    intros [= <- <-]. simpl.
    repeat split; try lia; try (by intros [? [=]]); try (by eexists).
  - destruct (register w d (HS a) "alice" _); [|discriminate..]. simpl.
    destruct (register w d (HS b) "bob" _); [|discriminate..]. simpl.
    intros [= <- <-]. simpl.
    repeat split; try lia; try (by intros [? [=]]); try (by eexists).
  - destruct (register w d (HS a) "alice" _); [|discriminate..]. simpl.
    destruct (register w d (HS b) "bob" _); [|discriminate..]. simpl.
    destruct (register w d (HS c) "charlie" _); [|discriminate..]. simpl.
    intros [= <- <-]. simpl.
    repeat split; try lia; try (by intros [? [=]]); try (by eexists).
  - destruct (register w d (HS a) "alice" _); [|discriminate..]. simpl.
    destruct (register w d (HS b) "bob" _); [|discriminate..]. simpl.
    destruct (register w d (HS c) "charlie" _); [|discriminate..]. simpl.
    discriminate.
Qed.

Lemma CreateTestContext_users_witness :
  CreateTestContext goodWorld [rust_hs1; js_hs2]
  = ([EvDeploy; EvRegister 7%nat "hs1" "alice" "complement-crypto-password";
      EvRegister 7%nat "hs2" "bob" "complement-crypto-password"], Done aliceAndBob)
  ∧ is_Some (Bob aliceAndBob) ∧ ¬ is_Some (Charlie aliceAndBob).
Proof.
  assert (H : CreateTestContext goodWorld [rust_hs1; js_hs2]
              = ([EvDeploy; EvRegister 7%nat "hs1" "alice" "complement-crypto-password";
                  EvRegister 7%nat "hs2" "bob" "complement-crypto-password"], Done aliceAndBob))
    by (vm_compute; reflexivity).
  split; [exact H|].
  destruct (CreateTestContext_users goodWorld _ _ _ H) as (_ & _ & _ & _ & HB & HC & _).
  split; [apply HB; simpl; lia|]. intros HS%HC. simpl in HS. lia.
Defined.

(** X12: with more than three client types, [CreateTestContext] never
    returns a context; when the deployment and the registrations work, it
    has by then registered alice, bob and charlie for the first three
    client types, and only then fails the test, with the number of client
    types in the message. *)
Theorem CreateTestContext_too_many (w : World) (clientType : list ClientType) (d : Ptr) :
  (3 < length clientType)%nat →
  deploy w = Done d →
  (∀ hs localpart password, ∃ cli, register w d hs localpart password = Done cli) →
  CreateTestContext w clientType
  = (EvDeploy
     :: zip_with (λ ct localpart,
                    EvRegister d (HS ct) localpart "complement-crypto-password")
          clientType ["alice"; "bob"; "charlie"]
     ++ [EvTFatalf ("CreateTestContext: too many clients: got "
                    +:+ pretty (length clientType))],
     Goexit).
Proof.
  intros Hlen Hd Hr.
  destruct clientType as [|a [|b [|c [|d' rest]]]]; simpl in Hlen; try lia.
  unfold CreateTestContext, Deploy, Register, call. simpl. rewrite Hd. simpl.
  destruct (Hr (HS a) "alice" "complement-crypto-password") as [ua ->]. simpl.
  destruct (Hr (HS b) "bob" "complement-crypto-password") as [ub ->]. simpl.
  destruct (Hr (HS c) "charlie" "complement-crypto-password") as [uc ->]. simpl. done.
Qed.

Lemma CreateTestContext_too_many_witness :
  CreateTestContext goodWorld [rust_hs1; js_hs2; rust_hs1; js_hs2]
  = ([EvDeploy; EvRegister 7%nat "hs1" "alice" "complement-crypto-password";
      EvRegister 7%nat "hs2" "bob" "complement-crypto-password";
      EvRegister 7%nat "hs1" "charlie" "complement-crypto-password";
      EvTFatalf "CreateTestContext: too many clients: got 4"], Goexit).
Proof.
  rewrite (CreateTestContext_too_many goodWorld [rust_hs1; js_hs2; rust_hs1; js_hs2] 7%nat).
  - vm_compute. reflexivity.
  - simpl. lia.
  - reflexivity.
  - intros hs localpart password. eexists. reflexivity.
Defined.

(** X13: a client [TestContext.MustCreateClient] returns was created by the
    binding of its client type's language, in one call, with the options of
    the Complement client as the given options changed them, except for
    the sliding sync URL: that is always the one of the context's
    deployment for the client type's homeserver, whatever the options
    set. *)
Theorem MustCreateClient_sliding_sync_url (w : World) (c : TestContext) (cli : option CSAPI)
    (clientType : ClientType) (options : list (ClientCreationOpts → ClientCreationOpts))
    (tr : list Event) (u : Client) :
  TestContext_MustCreateClient w c cli clientType options = (tr, Done u) →
  ∃ cfg0 url create,
    NewClientCreationOpts w cli = Done cfg0
    ∧ SlidingSyncURLForHS w (Deployment c) (HS clientType) = Done url
    ∧ GetLanguageBindings w (Lang clientType) = Some create
    ∧ let cfg := {| o_BaseURL := o_BaseURL (applyOpts options cfg0);
                    o_UserID := o_UserID (applyOpts options cfg0);
                    o_DeviceID := o_DeviceID (applyOpts options cfg0);
                    o_Password := o_Password (applyOpts options cfg0);
                    o_SlidingSyncURL := url;
                    o_PersistentStorage := o_PersistentStorage (applyOpts options cfg0) |} in
      create cfg = Done u ∧ tr = [EvCreateClient (Lang clientType) cfg].
Proof.
  unfold TestContext_MustCreateClient, MustCreateClient, call.
  destruct (NewClientCreationOpts w cli) as [cfg0| |]; [|discriminate..]. simpl.
  destruct (SlidingSyncURLForHS w (Deployment c) (HS clientType)) as [url| |];
    [|discriminate..]. simpl.
  destruct (GetLanguageBindings w (Lang clientType)) as [create|]; [|discriminate]. simpl.
  intros [= <- Hu]. by exists cfg0, url, create.
Qed.

Lemma MustCreateClient_sliding_sync_url_witness :
  ∃ tr u,
    TestContext_MustCreateClient goodWorld aliceAndBob (Alice aliceAndBob) rust_hs1
      [WithPersistentStorage; withOtherProxy] = (tr, Done u)
    ∧ tr = [EvCreateClient "rust"
              {| o_BaseURL := "http://hs1"; o_UserID := "@alice:hs1"; o_DeviceID := "DEV";
                 o_Password := "complement-crypto-password";
                 o_SlidingSyncURL := "http://localhost:32780";
                 o_PersistentStorage := true |}].
Proof.
  eexists _, _. split; [vm_compute; reflexivity|].
  destruct (MustCreateClient_sliding_sync_url goodWorld aliceAndBob (Alice aliceAndBob)
              rust_hs1 [WithPersistentStorage; withOtherProxy] _ _ eq_refl)
    as (cfg0 & url & create & H0 & Hurl & _ & _ & Htr).
  injection H0 as <-. injection Hurl as <-. exact Htr.
Defined.

End harness.

(** ** [EncRoomOptions]: what a list of options amounts to *)
Module room_more.
Import room.

(** The provided options, by name. *)
Inductive Opt :=
| OPresetPrivateChat
| OPresetTrustedPrivateChat
| OPresetPublicChat
| OInvite (invite : list string)
| ORotationPeriodMsgs (numMsgs : Z).

Definition to_option (o : Opt) : EncRoomOption :=
  match o with
  | OPresetPrivateChat => PresetPrivateChat
  | OPresetTrustedPrivateChat => PresetTrustedPrivateChat
  | OPresetPublicChat => PresetPublicChat
  | OInvite invite => Invite invite
  | ORotationPeriodMsgs numMsgs => RotationPeriodMsgs numMsgs
  end.

(** What the options leave in force, starting from what was in force: the
    last preset, the last invite list, the last rotation period. *)
Fixpoint final_preset (preset : string) (opts : list Opt) : string :=
  match opts with
  | [] => preset
  | OPresetPrivateChat :: rest => final_preset "private_chat" rest
  | OPresetTrustedPrivateChat :: rest => final_preset "trusted_private_chat" rest
  | OPresetPublicChat :: rest => final_preset "public_chat" rest
  | _ :: rest => final_preset preset rest
  end.

Fixpoint final_invite (invite : list string) (opts : list Opt) : list string :=
  match opts with
  | [] => invite
  | OInvite invite' :: rest => final_invite invite' rest
  | _ :: rest => final_invite invite rest
  end.

Fixpoint final_rotation (rotation : option Z) (opts : list Opt) : option Z :=
  match opts with
  | [] => rotation
  | ORotationPeriodMsgs n :: rest => final_rotation (Some n) rest
  | _ :: rest => final_rotation rotation rest
  end.

(** The content of the encryption event. *)
Definition content_of (rotation : option Z) : Object :=
  match rotation with
  | None => {[ "algorithm" := VString "m.megolm.v1.aes-sha2" ]}
  | Some n => {[ "algorithm" := VString "m.megolm.v1.aes-sha2";
                 "rotation_period_msgs" := VInt n ]}
  end.

(** The request body for a name, a preset, an invite list and a rotation
    period. *)
Definition body_of (name preset : string) (invite : list string) (rotation : option Z)
  : Object :=
  {[ "name" := VString name;
     "preset" := VString preset;
     "invite" := VStrings invite;
     "initial_state" :=
       VObjects [ {[ "type" := VString "m.room.encryption";
                     "state_key" := VString "";
                     "content" := VObject (content_of rotation) ]} ] ]}.

(** The kind of an option: what it sets. *)
Inductive Kind := KPreset | KInvite | KRotation.

Definition kind (o : Opt) : Kind :=
  match o with
  | OPresetPrivateChat | OPresetTrustedPrivateChat | OPresetPublicChat => KPreset
  | OInvite _ => KInvite
  | ORotationPeriodMsgs _ => KRotation
  end.

(** The body has a first initial-state event with a content map. *)
Definition has_content (reqBody : Object) : Prop :=
  ∃ initial_state event content,
    reqBody !! "initial_state" = Some (VObjects initial_state)
    ∧ initial_state !! 0%nat = Some event
    ∧ event !! "content" = Some (VObject content).

Lemma initialBody_body_of name : initialBody name = body_of name "private_chat" [] None.
Proof. reflexivity. Qed.

Lemma to_option_body_of o name preset invite rotation :
  to_option o (body_of name preset invite rotation)
  = Some (body_of name (final_preset preset [o]) (final_invite invite [o])
            (final_rotation rotation [o])).
Proof.
  destruct o; simpl; try (vm_compute; reflexivity).
  destruct rotation; vm_compute; reflexivity.
Qed.

Lemma final_step o preset invite rotation rest :
  final_preset preset (o :: rest) = final_preset (final_preset preset [o]) rest
  ∧ final_invite invite (o :: rest) = final_invite (final_invite invite [o]) rest
  ∧ final_rotation rotation (o :: rest) = final_rotation (final_rotation rotation [o]) rest.
Proof. by destruct o. Qed.

Lemma applyOptions_body_of name opts : ∀ preset invite rotation,
  applyOptions (to_option <$> opts) (body_of name preset invite rotation)
  = Some (body_of name (final_preset preset opts) (final_invite invite opts)
            (final_rotation rotation opts)).
Proof.
  induction opts as [|o rest IH]; intros preset invite rotation; [done|].
  cbn [fmap list_fmap applyOptions]. rewrite to_option_body_of, IH.
  destruct (final_step o preset invite rotation rest) as (-> & -> & ->). done.
Qed.

Lemma requestBody_body_of name opts :
  requestBody name (to_option <$> opts)
  = Some (body_of name (final_preset "private_chat" opts) (final_invite [] opts)
            (final_rotation None opts)).
Proof. unfold requestBody. rewrite initialBody_body_of. apply applyOptions_body_of. Qed.

(** X14: for every list of the provided options, none of them panics on
    the body [CreateNewEncryptedRoom] builds, and the body sent is the
    initial one with the last preset, the last invite list and the last
    rotation period of the list (the defaults where the list has none); it
    still has exactly one initial-state event, the encryption event. *)
Theorem requestBody_last_option_wins (name : string) (opts : list Opt) :
  requestBody name (to_option <$> opts)
  = Some (body_of name (final_preset "private_chat" opts) (final_invite [] opts)
            (final_rotation None opts)).
Proof.
  unfold requestBody. rewrite initialBody_body_of.
  apply (applyOptions_body_of name opts "private_chat" [] None).
Qed.

(** X15: two neighbouring options that set different things (a preset, the
    invite list, the rotation period) can be swapped without changing the
    request body. *)
Theorem requestBody_options_commute (name : string) (before after : list Opt) (o1 o2 : Opt) :
  kind o1 ≠ kind o2 →
  requestBody name (to_option <$> (before ++ o1 :: o2 :: after))
  = requestBody name (to_option <$> (before ++ o2 :: o1 :: after)).
Proof.
  intros Hk. rewrite !requestBody_body_of. f_equal.
  assert (H : ∀ p i r,
            final_preset p (before ++ o1 :: o2 :: after)
            = final_preset p (before ++ o2 :: o1 :: after)
            ∧ final_invite i (before ++ o1 :: o2 :: after)
              = final_invite i (before ++ o2 :: o1 :: after)
            ∧ final_rotation r (before ++ o1 :: o2 :: after)
              = final_rotation r (before ++ o2 :: o1 :: after)).
  { induction before as [|o rest IH]; intros p i r.
    - destruct o1, o2; simpl in *; done.
    - simpl. destruct o; simpl; apply IH. }
  destruct (H "private_chat" [] None) as (-> & -> & ->). done.
Qed.

Lemma requestBody_options_commute_witness :
  kind (ORotationPeriodMsgs 1) ≠ kind OPresetPublicChat
  ∧ requestBody "T" (to_option <$> ([] ++ ORotationPeriodMsgs 1 :: OPresetPublicChat :: []))
    = requestBody "T" (to_option <$> ([] ++ OPresetPublicChat :: ORotationPeriodMsgs 1 :: [])).
Proof.
  assert (H : kind (ORotationPeriodMsgs 1) ≠ kind OPresetPublicChat) by discriminate.
  split; [exact H|].
  exact (requestBody_options_commute "T" [] [] (ORotationPeriodMsgs 1) OPresetPublicChat H).
Defined.

(** X16: on any request body, [RotationPeriodMsgs] panics exactly when the
    body has no first initial-state event with a content map; otherwise it
    changes nothing but [initial_state], the new body has such an event
    again, and a later [RotationPeriodMsgs] does what it would have done on
    the old body: the last period wins. *)
Theorem RotationPeriodMsgs_panics_without_content (numMsgs : Z) (reqBody : Object) :
  match RotationPeriodMsgs numMsgs reqBody with
  | None => ¬ has_content reqBody
  | Some reqBody' =>
    has_content reqBody
    ∧ (∀ key, key ≠ "initial_state" → reqBody' !! key = reqBody !! key)
    ∧ has_content reqBody'
    ∧ (∀ n, RotationPeriodMsgs n reqBody' = RotationPeriodMsgs n reqBody)
  end.
Proof.
  unfold RotationPeriodMsgs, has_content.
  destruct (reqBody !! "initial_state") as [[| | | |initial_state]|] eqn:H1;
    try (by intros (? & ? & ? & [=] & _)).
  destruct (initial_state !! 0%nat) as [event|] eqn:H2;
    [|intros (? & ? & ? & [= <-] & H & _); by rewrite H2 in H].
  destruct (event !! "content") as [[| | |content|]|] eqn:H3;
    try (intros (? & ? & ? & [= <-] & H & H'); rewrite H2 in H; injection H as <-;
         by rewrite H3 in H').
  assert (Hlt : (0 < length initial_state)%nat) by (by eapply lookup_lt_Some).
  split; [by exists initial_state, event, content|].
  split; [by intros key Hk; rewrite lookup_insert_ne|]. split.
  - eexists _, _, _. split; [by rewrite lookup_insert_eq|].
    split; [by rewrite list_lookup_insert_eq|]. by rewrite lookup_insert_eq.
  - intros n. rewrite lookup_insert_eq.
    rewrite list_lookup_insert_eq by done. rewrite lookup_insert_eq.
    rewrite !insert_insert_eq, list_insert_insert_eq. done.
Qed.

End room_more.

(** ** Package [mautrixgo]: creating a client *)
Module mautrixgo_more.
Import mautrixgo.

(** The calls [NewMautrixClient] makes. *)
Inductive Call :=
| CallNewClient (baseURL userID accessToken : string)
| CallSqlOpen (driver dsn : string)
| CallNewWithDB (rawDB : nat) (dialect : string)
| CallNewCryptoHelper (client : nat) (pickleKey : string) (db : nat)
| CallSetCrypto (client helper : nat).

(** What the libraries answer: a handle, or an error. *)
Record Libraries := {
  mautrix_NewClient : string → nat + string;
  sql_Open : string → string → nat + string;
  dbutil_NewWithDB : nat → string → nat + string;
  cryptohelper_NewCryptoHelper : nat → string → nat → nat + string
}.

(** [NewMautrixClient]: the calls made and the client or the error
    returned. *)
Definition NewMautrixClient (lib : Libraries) (opts : ClientCreationOpts)
  : list Call * (MautrixClient + string) :=
  match mautrix_NewClient lib (BaseURL opts) with
  | inr err => ([CallNewClient (BaseURL opts) "" ""], inr err)
  | inl client =>
    let dsn := if PersistentStorage opts
               then "file:mautrix-go.db?_txlock=immediate"
               else ":memory:" in
    match sql_Open lib "sqlite3" dsn with
    | inr err => ([CallNewClient (BaseURL opts) "" ""; CallSqlOpen "sqlite3" dsn], inr err)
    | inl rawDB =>
      match dbutil_NewWithDB lib rawDB "sqlite3" with
      | inr err =>
        ([CallNewClient (BaseURL opts) "" ""; CallSqlOpen "sqlite3" dsn;
          CallNewWithDB rawDB "sqlite3"], inr err)
      | inl db =>
        match cryptohelper_NewCryptoHelper lib client "mautrix-complement-crypto" db with
        | inr err =>
          ([CallNewClient (BaseURL opts) "" ""; CallSqlOpen "sqlite3" dsn;
            CallNewWithDB rawDB "sqlite3";
            CallNewCryptoHelper client "mautrix-complement-crypto" db], inr err)
        | inl helper =>
          ([CallNewClient (BaseURL opts) "" ""; CallSqlOpen "sqlite3" dsn;
            CallNewWithDB rawDB "sqlite3";
            CallNewCryptoHelper client "mautrix-complement-crypto" db;
            CallSetCrypto client helper],
           inl {| client := client; opts := opts; cryptoHelper := helper |})
        end
      end
    end
  end.

(** The data sources a trace opens. *)
Definition opened (calls : list Call) : list string :=
  omap (λ c, match c with CallSqlOpen _ dsn => Some dsn | _ => None end) calls.

(** The crypto helpers a trace installs on a client. *)
Definition installed (calls : list Call) : list (nat * nat) :=
  omap (λ c, match c with CallSetCrypto cl h => Some (cl, h) | _ => None end) calls.

(** Libraries that work: handles are numbered. *)
Definition goodLibraries : Libraries :=
  {| mautrix_NewClient := λ _, inl 1%nat;
     sql_Open := λ _ _, inl 2%nat;
     dbutil_NewWithDB := λ _ _, inl 3%nat;
     cryptohelper_NewCryptoHelper := λ _ _ _, inl 4%nat |}.

(** X17: a client [NewMautrixClient] returns keeps the options it was given
    and opened one sqlite3 database: in memory, or, with
    [PersistentStorage], in the very file [DeletePersistentStorage]
    removes.  The crypto helper in the client is the one installed on its
    mautrix client, it was made for that client over the opened database,
    and it is the one [Close] closes. *)
Theorem NewMautrixClient_created (lib : Libraries) (o : ClientCreationOpts)
    (calls : list Call) (c : MautrixClient) (t : TestLike) (w : World) :
  NewMautrixClient lib o = (calls, inl c) →
  opts c = o
  ∧ mautrix_NewClient lib (BaseURL o) = inl (client c)
  ∧ (∃ file, removed (DeletePersistentStorage c t w) = removed w ++ [file]
       ∧ opened calls = [if PersistentStorage o
                         then "file:" +:+ file +:+ "?_txlock=immediate"
                         else ":memory:"])
  ∧ installed calls = [(client c, cryptoHelper c)]
  ∧ (∃ rawDB db,
       sql_Open lib "sqlite3" (default "" (head (opened calls))) = inl rawDB
       ∧ dbutil_NewWithDB lib rawDB "sqlite3" = inl db
       ∧ cryptohelper_NewCryptoHelper lib (client c) "mautrix-complement-crypto" db
         = inl (cryptoHelper c))
  ∧ closed (Close c t w) = closed w ++ [cryptoHelper c].
Proof.
  unfold NewMautrixClient.
  destruct (mautrix_NewClient lib (BaseURL o)) as [cl|]; [|discriminate].
  destruct (sql_Open lib "sqlite3" _) as [rawDB|] eqn:Hraw; [|discriminate].
  destruct (dbutil_NewWithDB lib rawDB "sqlite3") as [db|] eqn:Hdb; [|discriminate].
  destruct (cryptohelper_NewCryptoHelper lib cl _ db) as [h|] eqn:Hh; [|discriminate].
  intros [= <- <-]. simpl. repeat split; try done.
  - exists "mautrix-go.db". split; [done|]. by destruct (PersistentStorage o).
  - by exists rawDB, db.
Qed.

Lemma NewMautrixClient_created_witness :
  ∃ calls c,
    NewMautrixClient goodLibraries
      {| BaseURL := "http://hs1"; UserID := "@alice:hs1"; Password := "pw";
         PersistentStorage := true |} = (calls, inl c)
    ∧ opened calls = ["file:mautrix-go.db?_txlock=immediate"]
    ∧ installed calls = [(1%nat, 4%nat)].
Proof.
  eexists _, _. split; [vm_compute; reflexivity|].
  destruct (NewMautrixClient_created goodLibraries
              {| BaseURL := "http://hs1"; UserID := "@alice:hs1"; Password := "pw";
                 PersistentStorage := true |} _ _ (Test "T")
              {| closed := []; t_log := []; removed := [] |} eq_refl)
    as (_ & _ & _ & Hi & _).
  split; [vm_compute; reflexivity|exact Hi].
Defined.

End mautrixgo_more.
